(** * The voting pipeline: intake, queue, worker, store, aggregator

  A shallow embedding of the three programs of the repository that make
  up the pipeline, and the properties of the specification stated over
  them:

  - [Worker]: [worker/Program.cs] (C#), the polling loop that drains the
    Redis list [votes] into the PostgreSQL table [votes];
  - [Result]: [result/server.js] (JavaScript), the aggregator that
    queries the grouped counts and broadcasts them;
  - [Vote]: [vote/app.py] (Python), the intake handler [hello].

  The external services are modelled by what the programs can observe of
  them: PostgreSQL by the contents of the one table and the outcome of
  the four statements the programs send, Redis by the list [votes], the
  network and the clock by the readings each loop iteration takes. *)

From Stdlib Require Import ZArith Lia Ascii String.
From Stdlib Require Import DecimalString HexadecimalString DecimalNat.
From stdpp Require Import base option list strings gmap.

Local Open Scope string_scope.
Local Open Scope list_scope.

(** * PostgreSQL: the table [votes] and the statements sent to it *)

Module Pg.

(** One row of
    [CREATE TABLE IF NOT EXISTS votes (id VARCHAR(255) NOT NULL UNIQUE,
                                       vote VARCHAR(255) NOT NULL)].
    A string stands for its sequence of characters, and its length is
    their number. *)
Record Row := mkRow { id : string; vote : string }.

#[global] Instance Row_eq_dec : EqDecision Row.
Proof. solve_decision. Defined.

(** The database as the programs see it: the table [votes] is absent
    ([None]) until it is created, and then holds its rows in insertion
    order. *)
Definition Database := option (list Row).

Inductive SqlError :=
| undefined_table                (* 42P01 *)
| character_not_in_repertoire    (* 22021 *)
| string_data_right_truncation   (* 22001 *)
| unique_violation.              (* 23505 *)

(** The statements of the repository, with their bound parameters. *)
Inductive Command :=
| CREATE_TABLE_IF_NOT_EXISTS_votes
| INSERT_INTO_votes (p_id p_vote : string)
    (* INSERT INTO votes (id, vote) VALUES (@id, @vote) *)
| UPDATE_votes_SET_vote (p_vote p_id : string)
    (* UPDATE votes SET vote = @vote WHERE id = @id *)
| SELECT_1.

(** A text parameter that holds the character U+0000 is refused when the
    server reads the parameters of a statement, before the statement is
    run: no text value of PostgreSQL holds that character. *)
Fixpoint has_nul (s : string) : bool :=
  match s with
  | EmptyString => false
  | String c s' => bool_decide (c = "000"%char) || has_nul s'
  end.

Definition is_space (c : ascii) : bool := bool_decide (c = " "%char).

Fixpoint all_spaces (s : string) : bool :=
  match s with
  | EmptyString => true
  | String c s' => is_space c && all_spaces s'
  end.

(** Assignment to a [VARCHAR(n)] column, as PostgreSQL defines it for
    [character varying(n)]: a value of at most [n] characters is stored as
    it is; a longer one is an error, unless the excess is all spaces, and
    then it is cut to [n] characters. *)
Definition varchar (n : nat) (s : string) : option string :=
  if decide (String.length s <= n) then Some s
  else if all_spaces (substring n (String.length s - n) s)
       then Some (substring 0 n s)
       else None.

Definition has_id (k : string) (t : list Row) : bool :=
  existsb (fun r => bool_decide (id r = k)) t.

Definition set_vote (k v : string) (r : Row) : Row :=
  if decide (id r = k) then mkRow (id r) v else r.

(** What the server does with one statement: the error it reports, or
    the database after it. A statement on the table is refused while the
    table does not exist, and then if one of its parameters holds U+0000.
    The insert coerces both values to their columns and is refused on an
    [id] that is already there; the update coerces the new value and
    rewrites the rows whose [id] is equal to the parameter, which is
    compared as it is. *)
Definition execute (c : Command) (db : Database) : SqlError + Database :=
  match c with
  | CREATE_TABLE_IF_NOT_EXISTS_votes =>
      match db with
      | None => inr (Some [])
      | Some t => inr (Some t)
      end
  | INSERT_INTO_votes p_id p_vote =>
      match db with
      | None => inl undefined_table
      | Some t =>
          if has_nul p_id || has_nul p_vote then inl character_not_in_repertoire
          else
            match varchar 255 p_id, varchar 255 p_vote with
            | Some i, Some v =>
                if has_id i t then inl unique_violation
                else inr (Some (t ++ [mkRow i v]))
            | _, _ => inl string_data_right_truncation
            end
      end
  | UPDATE_votes_SET_vote p_vote p_id =>
      match db with
      | None => inl undefined_table
      | Some t =>
          if has_nul p_vote || has_nul p_id then inl character_not_in_repertoire
          else
            match varchar 255 p_vote with
            | Some v => inr (Some (map (set_vote p_id v) t))
            | None => inl string_data_right_truncation
            end
      end
  | SELECT_1 => inr db
  end.

(** The row of a voter, as [SELECT vote FROM votes WHERE id = k] would
    return it: every matching row. *)
Definition rows_of (k : string) (t : list Row) : list Row :=
  filter (fun r => id r = k) t.

Definition ids (t : list Row) : list string := map id t.

End Pg.

(** * The worker: [worker/Program.cs] *)

Module Worker.

Import Pg.

(** ** Exceptions, connections and the world outside the process *)

Inductive Exception :=
| PostgresException (e : SqlError)  (* the server refused a statement *)
| NpgsqlException                   (* the link failed under a statement *)
| InvalidOperationException         (* a command on a connection that is not open *)
| JsonException                     (* the text is not JSON of the expected shape *)
| NullReferenceException
| AggregateException.               (* the faulted task of ListLeftPopAsync *)

(** [PostgresException] and [NpgsqlException] derive from [DbException];
    the others do not. *)
Definition is_DbException (ex : Exception) : bool :=
  match ex with
  | PostgresException _ | NpgsqlException => true
  | _ => false
  end.

(** [ex.ToString()], up to the message and stack trace. *)
Definition ToString (ex : Exception) : string :=
  match ex with
  | PostgresException _ => "Npgsql.PostgresException"
  | NpgsqlException => "Npgsql.NpgsqlException"
  | InvalidOperationException => "System.InvalidOperationException"
  | JsonException => "Newtonsoft.Json.JsonException"
  | NullReferenceException => "System.NullReferenceException"
  | AggregateException => "System.AggregateException"
  end.

(** [System.Data.ConnectionState], as far as Npgsql reports it. *)
Inductive ConnectionState := Closed | Open | Broken.

#[global] Instance ConnectionState_eq_dec : EqDecision ConnectionState.
Proof. solve_decision. Defined.

(** A connection object: the state the driver reports, whether the
    session behind it is still alive, and the connection string it was
    opened with. The driver learns of a lost session only when it next
    uses it. *)
Record NpgsqlConnection := mkConn {
  State : ConnectionState;
  link_up : bool;
  ConnectionString : string
}.

Inductive Line :=
| stdout (s : string)    (* Console.WriteLine *)
| stderr (s : string).   (* Console.Error.WriteLine *)

(** Everything the process acts on: the Redis list [votes] (its left end
    first), the database, the connection objects it has created (a local
    variable holds the index of one), and the lines written so far. *)
Record World := mkWorld {
  redis_votes : list string;
  db : Database;
  heap : list NpgsqlConnection;
  console : list Line
}.

Definition with_redis_votes (q : list string) (w : World) : World :=
  mkWorld q (db w) (heap w) (console w).
Definition with_db (d : Database) (w : World) : World :=
  mkWorld (redis_votes w) d (heap w) (console w).
Definition with_heap (h : list NpgsqlConnection) (w : World) : World :=
  mkWorld (redis_votes w) (db w) h (console w).
Definition with_console (c : list Line) (w : World) : World :=
  mkWorld (redis_votes w) (db w) (heap w) c.

(** ** Computations: state, exceptions, and loops that wait *)

(** A call returns a value, throws, or is still inside one of the
    [while (true)] retry loops when the readings it was given run out. *)
Inductive Outcome (A : Type) :=
| Return (a : A)
| Throw (ex : Exception)
| Blocked.
Arguments Return {A} a.
Arguments Throw {A} ex.
Arguments Blocked {A}.

Definition M (A : Type) : Type := World -> Outcome A * World.

Definition ret {A} (a : A) : M A := fun w => (Return a, w).

Definition bind {A B} (m : M A) (k : A -> M B) : M B :=
  fun w =>
    match m w with
    | (Return a, w') => k a w'
    | (Throw ex, w') => (Throw ex, w')
    | (Blocked, w') => (Blocked, w')
    end.

Definition throw {A} (ex : Exception) : M A := fun w => (Throw ex, w).

Definition blocked {A} : M A := fun w => (Blocked, w).

Notation "x <- m ;; k" := (bind m (fun x => k))
  (at level 100, m at level 99, k at level 200, right associativity).
Notation "m ;; k" := (bind m (fun _ => k))
  (at level 100, k at level 200, right associativity).

(** [try { body } catch (DbException) { handler }]: an exception of
    another type, and one thrown by the handler, leave the statement. *)
Definition try_catch_DbException {A} (body handler : M A) : M A :=
  fun w =>
    match body w with
    | (Throw ex, w') => if is_DbException ex then handler w' else (Throw ex, w')
    | r => r
    end.

Definition WriteLine (s : string) : M unit :=
  fun w => (Return tt, with_console (console w ++ [stdout s]) w).

Definition Error_WriteLine (s : string) : M unit :=
  fun w => (Return tt, with_console (console w ++ [stderr s]) w).

(** ** Npgsql *)

(** [new NpgsqlConnection(connectionString)] followed by a successful
    [Open()]. *)
Definition new_open_connection (connectionString : string) : M nat :=
  fun w => (Return (length (heap w)),
            with_heap (heap w ++ [mkConn Open true connectionString]) w).

Definition set_State (s : ConnectionState) (c : NpgsqlConnection) : NpgsqlConnection :=
  mkConn s (link_up c) (ConnectionString c).

(** [connection.Close()]. *)
Definition Close (connection : nat) : M unit :=
  fun w => (Return tt, with_heap (alter (set_State Closed) connection (heap w)) w).

(** [connection.State]. *)
Definition get_State (connection : nat) : M ConnectionState :=
  fun w => (Return (from_option State Closed (heap w !! connection)), w).

(** [command.ExecuteNonQuery()] for a command created on [connection]:
    refused at once on a connection that is not open; on a dead session
    the driver marks the connection broken and throws; otherwise the
    server runs the statement. *)
Definition ExecuteNonQuery (connection : nat) (c : Command) : M unit :=
  fun w =>
    match heap w !! connection with
    | None => (Throw InvalidOperationException, w)
    | Some conn =>
        if decide (State conn = Open) then
          if link_up conn then
            match execute c (db w) with
            | inl e => (Throw (PostgresException e), w)
            | inr d => (Return tt, with_db d w)
            end
          else
            (Throw NpgsqlException,
             with_heap (alter (set_State Broken) connection (heap w)) w)
        else (Throw InvalidOperationException, w)
    end.

(** One attempt of [connection.Open()]. *)
Inductive Attempt :=
| Accepted
| SocketException
| DbException (Message : string).

(** [OpenDbConnection]: retries until an attempt is accepted, then makes
    sure the table exists. *)
Fixpoint OpenDbConnection (connectionString : string) (attempts : list Attempt) : M nat :=
  match attempts with
  | [] => blocked
  | Accepted :: _ =>
      connection <- new_open_connection connectionString ;;
      Error_WriteLine "Connected to db" ;;
      ExecuteNonQuery connection CREATE_TABLE_IF_NOT_EXISTS_votes ;;
      ret connection
  | SocketException :: rest =>
      Error_WriteLine "Waiting for db" ;;
      OpenDbConnection connectionString rest
  | DbException Message :: rest =>
      Error_WriteLine ("Waiting for db: " +:+ Message) ;;
      OpenDbConnection connectionString rest
  end.

(** [UpdateVote]: insert, and on any [DbException] update instead, with
    the same command and parameters. The [finally] clause disposes of the
    command, which changes nothing here. *)
Definition UpdateVote (connection : nat) (voterId vote : string) : M unit :=
  try_catch_DbException
    (ExecuteNonQuery connection (INSERT_INTO_votes voterId vote))
    (ExecuteNonQuery connection (UPDATE_votes_SET_vote vote voterId)).

(** ** What the process reads from outside *)

(** [JsonConvert.DeserializeAnonymousType(json, definition)], where
    [definition] is an anonymous object of two string fields, [vote] and
    [voter_id]. [Null] is the JSON text [null], which decodes to a null
    reference. A JSON object that lacks one of the two fields is outside
    this model. *)
Record Submission := mkSubmission { vote : string; voter_id : string }.

Inductive Decoded :=
| Malformed
| Null
| Object (s : Submission).

(** What can happen to the store connections while the loop sleeps: the
    session is lost without the driver noticing, or the driver has marked
    the open connections broken. *)
Inductive DbEvent := Quiet | LinkLost | ConnectionBroken.

(** [redisConn.IsConnected] and what follows from it: connected and
    serving; not connected, with the outcomes of the successive
    [ConnectionMultiplexer.Connect] calls; or connected but the pop's task
    faults. *)
Inductive RedisReading :=
| IsConnected
| Disconnected (attempts : list bool)
| Faulted.

(** The readings of one iteration of the loop. Times are in
    milliseconds. *)
Record Tick := mkTick {
  during_sleep : DbEvent;
  redis : RedisReading;
  UtcNow : Z;                    (* DateTime.UtcNow at the refresh test *)
  UtcNow_after : Z;              (* DateTime.UtcNow once reconnected *)
  GenerateAuthToken : string;    (* RDSAuthTokenGenerator.GenerateAuthToken *)
  Open_attempts : list Attempt   (* for a call of OpenDbConnection *)
}.

(** The environment variables, after their defaults. *)
Record Config := mkConfig {
  dbHost : string;
  dbPort : string;
  dbUser : string;
  dbName : string;
  useIamAuth : bool;
  dbPassword : string;
  redisHost : string;
  redisPort : string
}.

(** The local variables of [Main] that the loop assigns. *)
Record Locals := mkLocals {
  pgsql : nat;
  keepAliveCommand : nat;    (* the connection the command was created on *)
  dbConnectionString : string;
  lastTokenRefresh : Z
}.

Definition with_pgsql (c : nat) (l : Locals) : Locals :=
  mkLocals c (keepAliveCommand l) (dbConnectionString l) (lastTokenRefresh l).

(** [TimeSpan.FromMinutes(10)]. *)
Definition tokenRefreshInterval : Z := 10 * 60 * 1000.

Definition lose_link (c : NpgsqlConnection) : NpgsqlConnection :=
  mkConn (State c) false (ConnectionString c).

Definition break_connection (c : NpgsqlConnection) : NpgsqlConnection :=
  mkConn (if decide (State c = Open) then Broken else State c) false (ConnectionString c).

Definition happen (e : DbEvent) : M unit :=
  fun w =>
    match e with
    | Quiet => (Return tt, w)
    | LinkLost => (Return tt, with_heap (map lose_link (heap w)) w)
    | ConnectionBroken => (Return tt, with_heap (map break_connection (heap w)) w)
    end.

(** [redis.ListLeftPopAsync("votes").Result]. *)
Definition ListLeftPop (r : RedisReading) : M (option string) :=
  fun w =>
    match r with
    | Faulted => (Throw AggregateException, w)
    | _ =>
        match redis_votes w with
        | [] => (Return None, w)
        | json :: rest => (Return (Some json), with_redis_votes rest w)
        end
    end.

Fixpoint Connect (attempts : list bool) : M unit :=
  match attempts with
  | [] => blocked
  | true :: _ => Error_WriteLine "Connecting to redis"
  | false :: rest =>
      Error_WriteLine "Connecting to redis" ;;
      Error_WriteLine "Waiting for redis" ;;
      Connect rest
  end.

Definition OpenRedisConnection (hostname port : string) (attempts : list bool) : M unit :=
  WriteLine ("Connecting to redis at " +:+ hostname +:+ ":" +:+ port) ;;
  Connect attempts.

(** ** [Main] *)

Section Main.

Variable cfg : Config.
Variable DeserializeAnonymousType : string -> Decoded.

Definition iam_connection_string (authToken : string) : string :=
  "Server=" +:+ dbHost cfg +:+ ";Port=" +:+ dbPort cfg +:+ ";Username=" +:+ dbUser cfg
  +:+ ";Password=" +:+ authToken +:+ ";Database=" +:+ dbName cfg
  +:+ ";SSL Mode=Require;Trust Server Certificate=true".

Definition password_connection_string : string :=
  "Server=" +:+ dbHost cfg +:+ ";Port=" +:+ dbPort cfg +:+ ";Username=" +:+ dbUser cfg
  +:+ ";Password=" +:+ dbPassword cfg +:+ ";Database=" +:+ dbName cfg.

(** Lines 21 to 65: configuration, the first connections, the keep-alive
    command. *)
Definition startup (boot : Tick) : M Locals :=
  cs <- (if useIamAuth cfg then
           WriteLine ("Using IAM authentication for RDS: " +:+ dbHost cfg +:+ ":" +:+ dbPort cfg) ;;
           ret (iam_connection_string (GenerateAuthToken boot))
         else
           WriteLine "Using password authentication for database" ;;
           ret password_connection_string) ;;
  connection <- OpenDbConnection cs (Open_attempts boot) ;;
  OpenRedisConnection (redisHost cfg) (redisPort cfg)
    (match redis boot with Disconnected attempts => attempts | _ => [true] end) ;;
  ret (mkLocals connection connection cs (UtcNow boot)).

(** Lines 82 and 83: decoding, and the first use of the decoded object. *)
Definition decode (json : string) : M Submission :=
  match DeserializeAnonymousType json with
  | Malformed => throw JsonException
  | Null => throw NullReferenceException
  | Object v =>
      WriteLine ("Processing vote for '" +:+ vote v +:+ "' by '" +:+ voter_id v +:+ "'") ;;
      ret v
  end.

Definition refresh_due (t : Tick) (l : Locals) : bool :=
  useIamAuth cfg && bool_decide (UtcNow t - lastTokenRefresh l > tokenRefreshInterval)%Z.

(** Lines 86 to 101: the token refresh. *)
Definition refresh (t : Tick) (l : Locals) : M Locals :=
  if refresh_due t l then
    WriteLine "Refreshing IAM auth token..." ;;
    Close (pgsql l) ;;
    let newToken := GenerateAuthToken t in
    let cs := iam_connection_string newToken in
    connection <- OpenDbConnection cs (Open_attempts t) ;;
    ret (mkLocals connection connection cs (UtcNow_after t))
  else ret l.

(** Lines 71 to 77: the Redis check. *)
Definition reconnect_redis (t : Tick) : M unit :=
  match redis t with
  | Disconnected attempts =>
      WriteLine "Reconnecting Redis" ;;
      OpenRedisConnection (redisHost cfg) (redisPort cfg) attempts
  | _ => ret tt
  end.

(** Lines 69 to 101: sleep, Redis check, pop, and for a record its
    decoding and the token refresh. *)
Definition poll (t : Tick) (l : Locals) : M (option (Submission * Locals)) :=
  happen (during_sleep t) ;;
  reconnect_redis t ;;
  json <- ListLeftPop (redis t) ;;
  match json with
  | Some json =>
      v <- decode json ;;
      l' <- refresh t l ;;
      ret (Some (v, l'))
  | None => ret None
  end.

(** Lines 103 to 112: reconnect, or else write. *)
Definition write (t : Tick) (l : Locals) (v : Submission) : M Locals :=
  s <- get_State (pgsql l) ;;
  if decide (s = Open) then
    UpdateVote (pgsql l) (voter_id v) (vote v) ;;
    ret l
  else
    WriteLine "Reconnecting DB" ;;
    connection <- OpenDbConnection (dbConnectionString l) (Open_attempts t) ;;
    ret (with_pgsql connection l).

(** One turn of [while (true)]. *)
Definition iteration (t : Tick) (l : Locals) : M Locals :=
  r <- poll t l ;;
  match r with
  | Some (v, l') => write t l' v
  | None =>
      ExecuteNonQuery (keepAliveCommand l) SELECT_1 ;;
      ret l
  end.

Fixpoint loop (ticks : list Tick) (l : Locals) : M Locals :=
  match ticks with
  | [] => ret l
  | t :: rest =>
      l' <- iteration t l ;;
      loop rest l'
  end.

(** The process after the readings given: still in the loop, ended by
    [return 1], or waiting inside a retry loop. *)
Inductive Status :=
| Running (l : Locals)
| Exited (code : Z)
| Waiting.

(** [try { ... } catch (Exception ex) { Console.Error.WriteLine(ex.ToString());
    return 1; }] around the whole of [Main]. *)
Definition top_level (body : M Locals) (w : World) : Status * World :=
  match body w with
  | (Return l, w') => (Running l, w')
  | (Throw ex, w') => (Exited 1, with_console (console w' ++ [stderr (ToString ex)]) w')
  | (Blocked, w') => (Waiting, w')
  end.

Definition Main (boot : Tick) (ticks : list Tick) : World -> Status * World :=
  top_level (l <- startup boot ;; loop ticks l).

(** [Main] from inside the loop, with the locals as they stand. *)
Definition Main_from (l : Locals) (ticks : list Tick) : World -> Status * World :=
  top_level (loop ticks l).

End Main.

End Worker.

(** * The aggregator: [result/server.js] *)

Module Result.

Import Pg.

(** A JavaScript number, as far as [parseInt] yields one: an integer or
    [NaN]. The integer is kept as it is read; JavaScript holds it exactly
    up to 2^53 and rounds it to the nearest double beyond. *)
Inductive Number := NaN | Num (z : Z).

#[global] Instance Number_eq_dec : EqDecision Number.
Proof. solve_decision. Defined.

(** A row of the query result as node-postgres delivers it: the [bigint]
    of [COUNT] arrives as its decimal text. *)
Record ResultRow := mkResultRow { row_vote : string; row_count : string }.

(** ** [SELECT vote, COUNT(id) AS count FROM votes GROUP BY vote] *)





(** ** [parseInt(string)] with no radix *)

(** The white space of JavaScript among the characters below U+0100: the
    space, U+0009 to U+000D, and the no-break space U+00A0. *)
Definition is_white_space (c : ascii) : bool :=
  let n := nat_of_ascii c in
  bool_decide (n = 32 \/ (9 <= n /\ n <= 13) \/ n = 160).

Fixpoint trim_start (s : string) : string :=
  match s with
  | String c s' => if is_white_space c then trim_start s' else s
  | EmptyString => s
  end.

Definition digit_value (c : ascii) : option Z :=
  let n := Z.of_nat (nat_of_ascii c) in
  if decide (48 <= n <= 57)%Z then Some (n - 48)%Z
  else if decide (97 <= n <= 122)%Z then Some (n - 87)%Z
  else if decide (65 <= n <= 90)%Z then Some (n - 55)%Z
  else None.

(** The longest prefix of digits of the radix, read left to right; [acc]
    is [None] until a digit has been read. *)
Fixpoint parse_digits (radix : Z) (s : string) (acc : option Z) : option Z :=
  match s with
  | EmptyString => acc
  | String c s' =>
      match digit_value c with
      | Some d =>
          if decide (d < radix)%Z
          then parse_digits radix s' (Some (radix * default 0%Z acc + d)%Z)
          else acc
      | None => acc
      end
  end.

Definition parse_unsigned (s : string) : option Z :=
  match s with
  | String "0" (String "x" s') | String "0" (String "X" s') => parse_digits 16 s' None
  | _ => parse_digits 10 s None
  end.

Definition parseInt (s : string) : Number :=
  match trim_start s with
  | String "-" s' => from_option (fun z => Num (- z)) NaN (parse_unsigned s')
  | String "+" s' => from_option Num NaN (parse_unsigned s')
  | s' => from_option Num NaN (parse_unsigned s')
  end.

(** ** [collectVotesFromResult] and [getVotes] *)

(** [votes[key] = value] on a plain object: an own property is created or
    overwritten, except for the key [__proto__], where assigning a number
    changes nothing. *)
Definition assign (key : string) (value : Number) (o : gmap string Number) : gmap string Number :=
  if decide (key = "__proto__") then o else <[key := value]> o.

Definition collectVotesFromResult (rows : list ResultRow) : gmap string Number :=
  foldl (fun votes row => assign (row_vote row) (parseInt (row_count row)) votes)
        {[ "a" := Num 0; "b" := Num 0 ]} rows.

(** What the callback of [client.query] receives. *)
Inductive QueryOutcome :=
| err (e : string)
| result (rows : list ResultRow).

(** What a cycle does to the outside. The payload of [emit] is the object
    handed to [JSON.stringify]. *)
Inductive Effect :=
| client_query
| console_error (s : string)
| sockets_emit (event : string) (payload : gmap string Number)
| setTimeout (ms : Z).

(** The callback passed to [client.query]. *)
Definition on_query (q : QueryOutcome) : list Effect :=
  match q with
  | err e => [console_error ("Error performing query: " +:+ e)]
  | result rows => [sockets_emit "scores" (collectVotesFromResult rows)]
  end ++ [setTimeout 1000].

(** [getVotes(client)], given the outcomes of the queries in the order
    they are answered: the timer set by a callback is what calls
    [getVotes] again. A query not yet answered ends the trace. *)
Fixpoint getVotes (answers : list QueryOutcome) : list Effect :=
  match answers with
  | [] => [client_query]
  | q :: rest => client_query :: on_query q ++ getVotes rest
  end.



(** One cycle: the query and what its callback does. *)
Definition cycle (q : QueryOutcome) : list Effect := client_query :: on_query q.

Definition is_emit (e : Effect) : bool :=
  match e with sockets_emit _ _ => true | _ => false end.

(** The rows of the answers that are results, in their order. *)
Definition successes (answers : list QueryOutcome) : list (list ResultRow) :=
  omap (fun q => match q with result rows => Some rows | err _ => None end) answers.

End Result.

(** * The intake: [hello] of the voting application [vote/app.py], as the
    repository records it *)

Module Vote.

Inductive Method := GET | POST.

Record Request := mkRequest {
  method : Method;
  cookies : gmap string string;
  form : gmap string string
}.

(** The process-wide flag and the Redis list, with whether Redis answers. *)
Record App := mkApp {
  ERROR_SIM_ENABLED : bool;
  redis_up : bool;
  redis_votes : list string;
  logger : list string
}.

Inductive Raised :=
| SimulatedError        (* Exception('Simulated Error: ...') *)
| BadRequestKeyError    (* request.form['vote'] without the field *)
| ConnectionError.      (* redis.rpush with Redis unreachable *)

(** The rendered view and the cookie set on it. *)
Record Response := mkResponse {
  rendered_vote : option string;
  set_cookie_voter_id : string
}.

(** The two choices the pipeline counts, as the aggregator names them. *)
Definition enumerated (choice : string) : Prop := choice = "a" \/ choice = "b".

#[global] Instance enumerated_dec choice : Decision (enumerated choice).
Proof. unfold enumerated. apply _. Defined.

Fixpoint drop_last (s : string) : string :=
  match s with
  | EmptyString => EmptyString
  | String _ EmptyString => EmptyString
  | String c s' => String c (drop_last s')
  end.

(** [hex(n)[2:-1]]: the hexadecimal digits of [n] without the last one. *)
Definition hex_2_m1 (n : N) : string :=
  drop_last (HexadecimalString.NilEmpty.string_of_uint (N.to_hex_uint n)).

(** The cookie [voter_id] if the request has one that is not empty, and
    otherwise [hex(random.getrandbits(64))[2:-1]]. *)
Definition identity (req : Request) (getrandbits : N) : string :=
  match cookies req !! "voter_id" with
  | Some c => if decide (c = "") then hex_2_m1 getrandbits else c
  | None => hex_2_m1 getrandbits
  end.

Section Hello.

(** [json.dumps] of a dictionary of strings, given by its items. *)
Variable json_dumps : list (string * string) -> string.

(** [hello()], for a request and the value of [random.getrandbits(64)]. *)
Definition hello (req : Request) (getrandbits : N) (app : App) : (Raised + Response) * App :=
  let voter_id := identity req getrandbits in
  match method req with
  | POST =>
      if ERROR_SIM_ENABLED app then
        (inl SimulatedError,
         mkApp (ERROR_SIM_ENABLED app) (redis_up app) (redis_votes app)
               (logger app ++ ["SIMULATED ERROR: Error simulation is ON"]))
      else
        match form req !! "vote" with
        | None => (inl BadRequestKeyError, app)
        | Some vote =>
            let logged := logger app ++ ["Received vote for " +:+ vote] in
            let data := json_dumps [("voter_id", voter_id); ("vote", vote)] in
            if redis_up app then
              (inr (mkResponse (Some vote) voter_id),
               mkApp (ERROR_SIM_ENABLED app) (redis_up app)
                     (redis_votes app ++ [data]) logged)
            else
              (inl ConnectionError,
               mkApp (ERROR_SIM_ENABLED app) (redis_up app) (redis_votes app) logged)
        end
  | GET => (inr (mkResponse None voter_id), app)
  end.

End Hello.

(** [get_error_sim_status()]: the value of [enabled] in the answer. *)
Definition get_error_sim_status (app : App) : bool * App :=
  (ERROR_SIM_ENABLED app, app).

(** [toggle_error_sim()]: the flag is inverted, its new state is logged,
    and the answer carries it as [enabled]. *)
Definition toggle_error_sim (app : App) : bool * App :=
  let enabled := negb (ERROR_SIM_ENABLED app) in
  let status := if enabled then "ENABLED" else "DISABLED" in
  (enabled,
   mkApp enabled (redis_up app) (redis_votes app)
         (logger app ++ ["Error simulation " +:+ status])).

End Vote.

(** * The vocabulary of the properties *)

Module Props.

Import Pg Worker.

(** A value that a [VARCHAR(255)] column stores unchanged. *)
Definition fits (s : string) : Prop := String.length s <= 255.

(** A value that the server takes as a parameter and the column stores
    unchanged: at most 255 characters, none of them U+0000. *)
Definition storable (s : string) : Prop := fits s /\ has_nul s = false.

(** What the declaration of the table guarantees of its contents: [id] is
    [UNIQUE], and both columns are [VARCHAR(255)]. *)
Definition unique_ids (t : list Row) : Prop := NoDup (ids t).

Definition within_columns (t : list Row) : Prop :=
  Forall (fun r => fits (Pg.id r) /\ fits (Pg.vote r)) t.

Definition schema_ok (t : list Row) : Prop := unique_ids t /\ within_columns t.

(** The rows of the table, none while it does not exist. *)
Definition table (w : World) : list Row := default [] (db w).

(** The connection is open and its session alive. *)
Definition store_open (connection : nat) (w : World) : Prop :=
  exists conn, heap w !! connection = Some conn /\ State conn = Open /\ link_up conn = true.

(** What [UpdateVote] asks of the server when both statements reach it:
    the insert, and the update if the insert is refused. *)
Definition upsert (k v : string) (d : Database) : SqlError + Database :=
  match execute (INSERT_INTO_votes k v) d with
  | inr d' => inr d'
  | inl _ => execute (UPDATE_votes_SET_vote v k) d
  end.

(** From one world to a later one, every row that was there is still
    there, in its place, and the table is still within its declaration. *)
Definition grows (w w' : World) : Prop :=
  ids (table w) `prefix_of` ids (table w')
  /\ (unique_ids (table w) -> unique_ids (table w'))
  /\ (within_columns (table w) -> within_columns (table w')).

(** [steady m]: whatever its outcome, [m] only ever extends the table. *)
Definition steady {A} (m : M A) : Prop := forall w, grows w (snd (m w)).

(** [keeps f m]: whatever its outcome, [m] leaves the part [f] of the
    world as it found it. *)
Definition keeps {A X} (f : World -> X) (m : M A) : Prop :=
  forall w, f (snd (m w)) = f w.

(** Redis is connected, or becomes so, and serves the pop. *)
Definition redis_serves (t : Tick) : Prop :=
  match redis t with
  | IsConnected => True
  | Disconnected attempts => true ∈ attempts
  | Faulted => False
  end.

(** [takes_at_most n m]: whatever its outcome, [m] leaves the queue as it
    found it but for at most [n] records taken from its head. *)
Definition takes_at_most {A} (n : nat) (m : M A) : Prop :=
  forall w, exists i, i <= n /\ redis_votes (snd (m w)) = drop i (redis_votes w).

(** The last Submission of a voter in a sequence. *)
Definition last_of (k : string) (subs : list Submission) : option Submission :=
  last (filter (fun s => voter_id s = k) subs).

Section Runs.

Variable cfg : Config.
Variable DeserializeAnonymousType : string -> Decoded.

(** Along a run of the loop, every record popped and decoded finds the
    store connection open when line 104 tests it. *)
Fixpoint open_at_each_write (ticks : list Tick) (l : Locals) (w : World) : Prop :=
  match ticks with
  | [] => True
  | t :: rest =>
      (forall v l1 w1,
          poll cfg DeserializeAnonymousType t l w = (Return (Some (v, l1)), w1) ->
          store_open (pgsql l1) w1)
      /\ (forall l' w',
          iteration cfg DeserializeAnonymousType t l w = (Return l', w') ->
          open_at_each_write rest l' w')
  end.

End Runs.

End Props.

(** * Values used in the examples *)

Module Fixture.

Import Pg Worker.

Definition cfg (iam : bool) : Config :=
  mkConfig "db" "5432" "postgres" "votes" iam "postgres" "redis" "6379".

Definition x256 : string := string_of_list_ascii (replicate 256 "x"%char).

Definition json_a : string := "{'voter_id':'abc','vote':'a'}".
Definition json_b : string := "{'voter_id':'abc','vote':'b'}".
Definition json_long : string := "{'voter_id':'" +:+ x256 +:+ "','vote':'a'}".

(** A decoder fixed on the payloads of the examples: the three texts above
    decode to the submissions they spell, [null] to the null reference,
    and every other text is malformed. *)
Definition DeserializeAnonymousType (json : string) : Decoded :=
  if decide (json = json_a) then Object (mkSubmission "a" "abc")
  else if decide (json = json_b) then Object (mkSubmission "b" "abc")
  else if decide (json = json_long) then Object (mkSubmission "a" x256)
  else if decide (json = "null") then Null
  else Malformed.

Definition quiet (now : Z) : Tick :=
  mkTick Quiet IsConnected now now "token" [Accepted].

(** The process just started: nothing queued, no table, no connection. *)
Definition fresh : World := mkWorld [] None [] [].

(** A world with one open connection, an empty table and [q] queued. *)
Definition serving (q : list string) : World :=
  mkWorld q (Some []) [mkConn Open true "Server=db"] [].

Definition locals0 : Locals := mkLocals 0 0 "Server=db" 0.

(** A connection the driver has marked broken, an empty table and [q]
    queued. *)
Definition broken (q : list string) : World :=
  mkWorld q (Some []) [mkConn Broken false "Server=db"] [].

(** A rendering of a dictionary of strings, for the examples: the items
    between braces, keys and values between quotation marks. *)
Definition quoted (s : string) : string :=
  String "034"%char (s +:+ String "034"%char EmptyString).

Definition json_dumps (items : list (string * string)) : string :=
  "{" +:+ String.concat ", " (map (fun kv => quoted (fst kv) +:+ ": " +:+ quoted (snd kv)) items)
  +:+ "}".

(** A form post of the choice [zebra] without a cookie. *)
Definition post_zebra : Vote.Request :=
  Vote.mkRequest Vote.POST ∅ {[ "vote" := "zebra" ]}.

Definition app0 : Vote.App := Vote.mkApp false true [] [].


(** The same world once the voter [abc] has chosen [a]. *)
Definition voted (q : list string) : World :=
  mkWorld q (Some [mkRow "abc" "a"]) [mkConn Open true "Server=db"] [].

(** A form post of the choice [a] by the voter [abc]. *)
Definition post_a : Vote.Request :=
  Vote.mkRequest Vote.POST {[ "voter_id" := "abc" ]} {[ "vote" := "a" ]}.

(** A decoder that reads back the one entry [json_dumps] makes of the
    post above, and finds every other text malformed. *)
Definition reads_back (json : string) : Decoded :=
  if decide (json = json_dumps [("voter_id", "abc"); ("vote", "a")])
  then Object (mkSubmission "a" "abc")
  else Malformed.

(** Two voters, the first of whom changes their mind. *)
Definition json_c : string := "{'voter_id':'xyz','vote':'b'}".

Definition two_voters (json : string) : Decoded :=
  if decide (json = json_a) then Object (mkSubmission "a" "abc")
  else if decide (json = json_b) then Object (mkSubmission "b" "abc")
  else if decide (json = json_c) then Object (mkSubmission "b" "xyz")
  else Malformed.



(** A Submission of the voter [xyz] whose choice is the three characters
    [a], U+0000, [b]; the queue entry spells the second as an escape. *)
Definition a_nul_b : string := String "a" (String "000" (String "b" EmptyString)).

Definition json_nul_choice : string := "{'voter_id':'xyz','vote':'a\u0000b'}".

Definition nul_choice (json : string) : Decoded :=
  if decide (json = json_nul_choice) then Object (mkSubmission a_nul_b "xyz")
  else Malformed.

End Fixture.

(** * Properties *)

Import Pg Worker Props.

(** ** The table under the statements *)

Lemma has_id_elem_of k t : has_id k t = true <-> k ∈ ids t.
Proof.
  unfold has_id, ids. rewrite existsb_exists, list_elem_of_fmap. split.
  - intros (r & Hr & Hk). apply bool_decide_eq_true in Hk.
    exists r. split; [done | by apply list_elem_of_In].
  - intros (r & Hk & Hr). exists r. split; [by apply list_elem_of_In |].
    by apply bool_decide_eq_true.
Qed.

Lemma has_id_false k t : has_id k t = false <-> k ∉ ids t.
Proof.
  rewrite <- has_id_elem_of. destruct (has_id k t); split; congruence.
Qed.

Lemma ids_set_vote k v t : ids (map (set_vote k v) t) = ids t.
Proof.
  unfold ids. rewrite map_map. apply map_ext. intros r.
  unfold set_vote. by destruct (decide (Pg.id r = k)).
Qed.

Lemma varchar_fits n s s' : varchar n s = Some s' -> String.length s' <= n.
Proof.
  unfold varchar. destruct (decide (String.length s <= n)) as [Hle | Hgt].
  - intros [= <-]. done.
  - destruct (all_spaces _); [| done]. intros [= <-].
    clear Hgt. revert s. induction n as [| n IH]; intros s.
    + by destruct s.
    + destruct s as [| c s]; simpl; [lia |]. specialize (IH s). lia.
Qed.

Lemma varchar_of_fits s : fits s -> varchar 255 s = Some s.
Proof. unfold fits, varchar. intros H. by destruct (decide _). Qed.

Lemma schema_ok_nil : schema_ok [].
Proof. split; [apply NoDup_nil_2 | apply Forall_nil_2]. Qed.

Lemma unique_ids_insert t i v : unique_ids t -> i ∉ ids t -> unique_ids (t ++ [mkRow i v]).
Proof.
  unfold unique_ids, ids. intros Hnd Hi. rewrite map_app. simpl.
  apply NoDup_app. split; [done |]. split; [| apply NoDup_singleton].
  intros x Hx Hx'. apply list_elem_of_singleton in Hx'. by subst.
Qed.

Lemma within_columns_insert t i v :
  within_columns t -> String.length i <= 255 -> String.length v <= 255 ->
  within_columns (t ++ [mkRow i v]).
Proof.
  intros Hfit Hli Hlv. apply Forall_app. split; [done |]. by apply Forall_singleton.
Qed.

Lemma within_columns_update t k v :
  within_columns t -> String.length v <= 255 -> within_columns (map (set_vote k v) t).
Proof.
  intros Hfit Hlv. apply Forall_fmap. eapply Forall_impl; [exact Hfit |].
  intros r [Hi Hv]. unfold set_vote. simpl.
  by destruct (decide (Pg.id r = k)).
Qed.

(** A statement that the server accepts keeps every row that was there,
    in its place, and leaves the table within its declaration. *)
Lemma execute_grows c d d' :
  execute c d = inr d' ->
  ids (default [] d) `prefix_of` ids (default [] d')
  /\ (unique_ids (default [] d) -> unique_ids (default [] d'))
  /\ (within_columns (default [] d) -> within_columns (default [] d')).
Proof.
  destruct c as [| i v | v i |]; simpl.
  - destruct d as [t |]; intros [= <-]; simpl; done.
  - destruct d as [t |]; [| done].
    destruct (has_nul i || has_nul v); [done |].
    destruct (varchar 255 i) as [i' |] eqn:Hi; [| done].
    destruct (varchar 255 v) as [v' |] eqn:Hv; [| done].
    destruct (has_id i' t) eqn:Hhas; [done |]. intros [= <-]. simpl.
    split; [| split].
    + unfold ids. rewrite map_app. by apply prefix_app_r.
    + intros Hok. apply unique_ids_insert; [done |]. by apply has_id_false.
    + intros Hok. apply within_columns_insert; eauto using varchar_fits.
  - destruct d as [t |]; [| done].
    destruct (has_nul v || has_nul i); [done |].
    destruct (varchar 255 v) as [v' |] eqn:Hv; [| done].
    intros [= <-]. simpl. unfold unique_ids. rewrite ids_set_vote.
    split; [done |]. split; [done |].
    intros Hok. apply within_columns_update; eauto using varchar_fits.
  - intros [= <-]. done.
Qed.

(** ** What a computation of the worker can do to the table *)


Lemma grows_refl w : grows w w.
Proof. split; [done | split; done]. Qed.

Lemma grows_trans w1 w2 w3 : grows w1 w2 -> grows w2 w3 -> grows w1 w3.
Proof.
  intros (H1 & H2 & H3) (H4 & H5 & H6). split; [by etrans | split; auto].
Qed.

Lemma grows_same_db w w' : db w' = db w -> grows w w'.
Proof. intros H. unfold grows, table. rewrite H. done. Qed.


Lemma steady_ret {A} (a : A) : steady (ret a).
Proof. intros w. apply grows_refl. Qed.

Lemma steady_throw {A} ex : steady (@throw A ex).
Proof. intros w. apply grows_refl. Qed.

Lemma steady_blocked {A} : steady (@blocked A).
Proof. intros w. apply grows_refl. Qed.

Lemma steady_bind {A B} (m : M A) (k : A -> M B) :
  steady m -> (forall a, steady (k a)) -> steady (bind m k).
Proof.
  intros Hm Hk w. unfold bind. specialize (Hm w).
  destruct (m w) as [[a | ex |] w1]; simpl in *; [| done | done].
  eapply grows_trans; [exact Hm | apply Hk].
Qed.

Lemma steady_try_catch {A} (body handler : M A) :
  steady body -> steady handler -> steady (try_catch_DbException body handler).
Proof.
  intros Hb Hh w. unfold try_catch_DbException. specialize (Hb w).
  destruct (body w) as [[a | ex |] w1]; simpl in *; [done | | done].
  destruct (is_DbException ex); [| done].
  eapply grows_trans; [exact Hb | apply Hh].
Qed.

Lemma steady_WriteLine s : steady (WriteLine s).
Proof. intros w. by apply grows_same_db. Qed.

Lemma steady_Error_WriteLine s : steady (Error_WriteLine s).
Proof. intros w. by apply grows_same_db. Qed.

Lemma steady_new_open_connection cs : steady (new_open_connection cs).
Proof. intros w. by apply grows_same_db. Qed.

Lemma steady_Close c : steady (Close c).
Proof. intros w. by apply grows_same_db. Qed.

Lemma steady_get_State c : steady (get_State c).
Proof. intros w. by apply grows_same_db. Qed.

Lemma steady_happen e : steady (happen e).
Proof. intros w. destruct e; by apply grows_same_db. Qed.

Lemma steady_ListLeftPop r : steady (ListLeftPop r).
Proof.
  intros w. unfold ListLeftPop.
  destruct r; destruct (redis_votes w); by apply grows_same_db.
Qed.

Lemma steady_ExecuteNonQuery c cmd : steady (ExecuteNonQuery c cmd).
Proof.
  intros w. unfold ExecuteNonQuery.
  destruct (heap w !! c) as [conn |]; [| apply grows_refl].
  destruct (decide (State conn = Open)); [| apply grows_refl].
  destruct (link_up conn); [| by apply grows_same_db].
  destruct (execute cmd (db w)) as [e0 | d] eqn:He; [apply grows_refl |].
  apply execute_grows in He. exact He.
Qed.

Create HintDb steady.

#[local] Hint Resolve steady_ret steady_throw steady_blocked steady_bind
  steady_try_catch steady_WriteLine steady_Error_WriteLine
  steady_new_open_connection steady_Close steady_get_State steady_happen
  steady_ListLeftPop steady_ExecuteNonQuery : steady.

Lemma steady_OpenDbConnection cs attempts : steady (OpenDbConnection cs attempts).
Proof.
  induction attempts as [| [| | msg] rest IH]; simpl; auto 10 with steady.
Qed.

Lemma steady_Connect attempts : steady (Connect attempts).
Proof.
  induction attempts as [| [|] rest IH]; simpl; auto 10 with steady.
Qed.

Lemma steady_UpdateVote c k v : steady (UpdateVote c k v).
Proof. unfold UpdateVote. auto with steady. Qed.

#[local] Hint Resolve steady_OpenDbConnection steady_Connect steady_UpdateVote : steady.

Section SteadyMain.

Variable cfg : Config.
Variable dec : string -> Decoded.

Lemma steady_poll t l : steady (poll cfg dec t l).
Proof.
  unfold poll, decode, refresh.
  repeat (apply steady_bind; [| intros ?]); auto with steady.
  - unfold reconnect_redis.
    destruct (redis t); unfold OpenRedisConnection; auto 10 with steady.
  - match goal with |- steady (match ?x with _ => _ end) => destruct x end;
      [| auto with steady].
    apply steady_bind; [destruct (dec _); auto 10 with steady |].
    intros v. apply steady_bind; [| auto with steady].
    destruct (refresh_due cfg t l); auto 10 with steady.
Qed.

Lemma steady_write t l v : steady (write t l v).
Proof.
  unfold write. apply steady_bind; [auto with steady |].
  intros s. destruct (decide (s = Open)); auto 10 with steady.
Qed.

Lemma steady_iteration t l : steady (iteration cfg dec t l).
Proof.
  unfold iteration. apply steady_bind; [apply steady_poll |].
  intros [[v l'] |]; [apply steady_write | auto with steady].
Qed.

Lemma steady_loop ticks l : steady (loop cfg dec ticks l).
Proof.
  revert l. induction ticks as [| t rest IH]; intros l; simpl.
  - auto with steady.
  - apply steady_bind; [apply steady_iteration | auto].
Qed.

Lemma steady_startup boot : steady (startup cfg boot).
Proof.
  unfold startup, OpenRedisConnection.
  apply steady_bind; [destruct (useIamAuth cfg); auto 10 with steady |].
  intros cs. auto 10 with steady.
Qed.

Lemma grows_top_level body w : steady body -> grows w (snd (top_level body w)).
Proof.
  intros Hb. unfold top_level. specialize (Hb w).
  destruct (body w) as [[l | ex |] w1]; simpl in *; try done.
Qed.

End SteadyMain.

(** ** [UpdateVote] on an open connection *)

Lemma store_open_State c w : store_open c w -> get_State c w = (Return Open, w).
Proof.
  intros (conn & Hc & Hs & _). unfold get_State. rewrite Hc. simpl. by rewrite Hs.
Qed.

Lemma store_open_with_db c d w : store_open c w -> store_open c (with_db d w).
Proof. intros (conn & Hc & Hs). by exists conn. Qed.

Lemma ExecuteNonQuery_open c cmd w :
  store_open c w ->
  ExecuteNonQuery c cmd w =
    match execute cmd (db w) with
    | inl e => (Throw (PostgresException e), w)
    | inr d => (Return tt, with_db d w)
    end.
Proof.
  intros (conn & Hc & Hs & Hl). unfold ExecuteNonQuery. rewrite Hc.
  destruct (decide (State conn = Open)); [| done]. by rewrite Hl.
Qed.

Lemma UpdateVote_open c k v w :
  store_open c w ->
  UpdateVote c k v w =
    match upsert k v (db w) with
    | inl e => (Throw (PostgresException e), w)
    | inr d => (Return tt, with_db d w)
    end.
Proof.
  intros Ho. unfold UpdateVote, try_catch_DbException, upsert.
  rewrite (ExecuteNonQuery_open _ _ _ Ho).
  destruct (execute (INSERT_INTO_votes k v) (db w)) as [e | d]; [| done].
  simpl. by rewrite (ExecuteNonQuery_open _ _ _ Ho).
Qed.

Lemma set_vote_absent k v t : k ∉ ids t -> map (set_vote k v) t = t.
Proof.
  induction t as [| r t IH]; simpl; [done |].
  intros Hk. apply not_elem_of_cons in Hk as [Hr Ht]. rewrite IH by done.
  unfold set_vote. destruct (decide (Pg.id r = k)); [congruence | done].
Qed.

Lemma set_vote_twice k v t : map (set_vote k v) (map (set_vote k v) t) = map (set_vote k v) t.
Proof.
  rewrite map_map. apply map_ext. intros r. unfold set_vote.
  destruct (decide (Pg.id r = k)) as [Hk | Hk]; simpl.
  - by destruct (decide (Pg.id r = k)).
  - by destruct (decide (Pg.id r = k)).
Qed.

Lemma varchar_long n s s' : varchar n s = Some s' -> s' <> s -> n < String.length s.
Proof.
  unfold varchar. destruct (decide (String.length s <= n)); [| lia].
  intros [= <-]. done.
Qed.

Lemma within_columns_no_long_id t k : within_columns t -> 255 < String.length k -> k ∉ ids t.
Proof.
  intros Hfit Hk Hin. unfold ids in Hin.
  apply list_elem_of_fmap in Hin as (r & -> & Hr).
  eapply Forall_forall in Hfit as [Hi _]; [| exact Hr]. unfold fits in Hi. lia.
Qed.

(** The insert followed by the update, at the server: once it has gone
    through, going through it again is refused at the insert and changes
    nothing at the update. *)
Lemma upsert_idempotent k v d d1 :
  within_columns (default [] d) ->
  upsert k v d = inr d1 ->
  upsert k v d1 = inr d1
  /\ exists e, execute (INSERT_INTO_votes k v) d1 = inl e
               /\ (fits k -> e = unique_violation).
Proof.
  intros Hfit. unfold upsert. destruct d as [t |]; [| done]. simpl in *.
  destruct (has_nul k) eqn:Hnk, (has_nul v) eqn:Hnv; simpl; try done.
  destruct (varchar 255 v) as [v' |] eqn:Hv;
    [| by destruct (varchar 255 k)].
  destruct (varchar 255 k) as [i |] eqn:Hk.
  - destruct (has_id i t) eqn:Hhas.
    + intros [= <-]. simpl.
      assert (has_id i (map (set_vote k v') t) = true) as ->.
      { apply has_id_elem_of. rewrite ids_set_vote. by apply has_id_elem_of. }
      rewrite set_vote_twice. eauto.
    + intros [= <-]. simpl.
      assert (has_id i (t ++ [mkRow i v']) = true) as ->.
      { apply has_id_elem_of. unfold ids. rewrite map_app. set_solver. }
      split; [| eauto]. do 2 f_equal. rewrite map_app. simpl.
      apply has_id_false in Hhas.
      destruct (decide (i = k)) as [-> | Hne].
      * rewrite set_vote_absent by done. unfold set_vote. simpl.
        by destruct (decide (k = k)).
      * rewrite set_vote_absent.
        2:{ apply within_columns_no_long_id; [done |].
            eapply varchar_long; [exact Hk | done]. }
        unfold set_vote. simpl. by destruct (decide (i = k)).
  - intros [= <-]. simpl. rewrite set_vote_twice. split; [done |].
    exists string_data_right_truncation. split; [done |].
    intros Hf. apply varchar_of_fits in Hf. congruence.
Qed.

Lemma store_open_dec c w : {store_open c w} + {~ store_open c w}.
Proof.
  unfold store_open. destruct (heap w !! c) as [conn |] eqn:Hc.
  - destruct (decide (State conn = Open)) as [Hs | Hs].
    + destruct (link_up conn) eqn:Hl.
      * left. eauto.
      * right. intros (conn' & [= <-] & _ & Hl'). congruence.
    + right. intros (conn' & [= <-] & Hs' & _). congruence.
  - right. intros (conn' & [=] & _).
Qed.

Lemma heap_alter_same (f : NpgsqlConnection -> NpgsqlConnection)
    (c : nat) (h : list NpgsqlConnection) conn :
  h !! c = Some conn -> alter f c h !! c = Some (f conn).
Proof.
  intros Hc. rewrite list_lookup_alter, Hc. by destruct (decide (c = c)).
Qed.

(** On a connection that is not open, or whose session is dead,
    [UpdateVote] throws and the table is as it was. *)
Lemma UpdateVote_not_open c k v w :
  ~ store_open c w ->
  exists ex w', UpdateVote c k v w = (Throw ex, w') /\ db w' = db w
                /\ redis_votes w' = redis_votes w /\ ~ store_open c w'.
Proof.
  intros Hno. unfold UpdateVote, try_catch_DbException, ExecuteNonQuery.
  destruct (heap w !! c) as [conn |] eqn:Hc; [| simpl; eauto 10].
  destruct (decide (State conn = Open)) as [Hs | Hs]; [| simpl; eauto 10].
  destruct (link_up conn) eqn:Hl.
  { exfalso. apply Hno. exists conn. done. }
  simpl. rewrite (heap_alter_same _ _ _ _ Hc). simpl.
  destruct (decide (Broken = Open)) as [Hb | _]; [done |].
  exists InvalidOperationException. eexists. split; [done |].
  split; [done |]. split; [done |].
  intros (conn' & Hc' & Hs' & _). simpl in Hc'.
  rewrite (heap_alter_same _ _ _ _ Hc) in Hc'.
  injection Hc' as <-. simpl in Hs'. done.
Qed.

(** C2. [UpdateVote] is idempotent: applied a second time with the same
    voter and choice, it leaves the table as the first application left
    it; and when the first application returned, the second returns too,
    its insert being refused by the server (on the unique key, for a
    voter identity that fits the column) and its update writing the same
    choice. *)
Theorem UpdateVote_idempotent c k v w :
  within_columns (table w) ->
  let once := UpdateVote c k v w in
  let twice := UpdateVote c k v (snd once) in
  table (snd twice) = table (snd once)
  /\ (fst once = Return tt ->
      twice = (Return tt, snd once)
      /\ exists e,
          ExecuteNonQuery c (INSERT_INTO_votes k v) (snd once)
            = (Throw (PostgresException e), snd once)
          /\ (fits k -> e = unique_violation)).
Proof.
  intros Hfit once twice. subst twice once.
  destruct (store_open_dec c w) as [Ho | Hno].
  - rewrite (UpdateVote_open _ _ _ _ Ho).
    destruct (upsert k v (db w)) as [e | d1] eqn:Hup; simpl.
    + rewrite (UpdateVote_open _ _ _ _ Ho), Hup. done.
    + pose proof (store_open_with_db c d1 w Ho) as Ho1.
      rewrite (UpdateVote_open _ _ _ _ Ho1). simpl.
      destruct (upsert_idempotent k v (db w) d1 Hfit Hup) as (Hup1 & e & He & Hu).
      rewrite Hup1. split; [done |]. intros _. split; [done |].
      exists e. rewrite (ExecuteNonQuery_open _ _ _ Ho1).
      change (db (with_db d1 w)) with d1. by rewrite He.
  - destruct (UpdateVote_not_open c k v w Hno) as (ex & w1 & -> & Hdb & _ & Hno1).
    simpl. destruct (UpdateVote_not_open c k v w1 Hno1) as (ex' & w2 & -> & Hdb2 & _).
    simpl. unfold table. rewrite Hdb2. done.
Qed.

(** ** The invariant of the table *)

Lemma within_columns_fits_id t k : within_columns t -> k ∈ ids t -> fits k.
Proof.
  intros Hfit Hin. unfold ids in Hin.
  apply list_elem_of_fmap in Hin as (r & -> & Hr).
  eapply Forall_forall in Hfit as [Hi _]; [exact Hi | exact Hr].
Qed.

(** For a voter who has a row, the two statements of [UpdateVote] come
    down to the update. *)
Lemma upsert_existing k v t :
  within_columns t -> k ∈ ids t ->
  upsert k v (Some t) = execute (UPDATE_votes_SET_vote v k) (Some t).
Proof.
  intros Hfit Hin. unfold upsert. simpl.
  destruct (has_nul k), (has_nul v); simpl; try done.
  rewrite (varchar_of_fits k) by eauto using within_columns_fits_id.
  destruct (varchar 255 v) as [v' |]; [| done].
  apply has_id_elem_of in Hin. by rewrite Hin.
Qed.

(** C7. Every operation of the worker, the only writer of the table,
    keeps its invariant: at most one row per voter identity is kept by
    [Main], from its start and from any point of its loop, whatever it
    reads; no row is ever deleted or moved (the identities present remain,
    in their places); and [UpdateVote] for a voter identity that has a row
    adds no row, and where it returns, has set the choice of that row in
    place. *)
Theorem tally_invariant cfg dec :
  (forall boot ticks w,
      let w' := snd (Main cfg dec boot ticks w) in
      (unique_ids (table w) -> unique_ids (table w'))
      /\ ids (table w) `prefix_of` ids (table w'))
  /\ (forall l ticks w,
      let w' := snd (Main_from cfg dec l ticks w) in
      (unique_ids (table w) -> unique_ids (table w'))
      /\ ids (table w) `prefix_of` ids (table w'))
  /\ (forall c k v w,
      within_columns (table w) -> k ∈ ids (table w) ->
      let r := UpdateVote c k v w in
      ids (table (snd r)) = ids (table w)
      /\ (fst r = Return tt -> fits v ->
          table (snd r) = map (set_vote k v) (table w))).
Proof.
  split; [| split].
  - intros boot ticks w w'. subst w'. unfold Main.
    destruct (grows_top_level (l <- startup cfg boot ;; loop cfg dec ticks l) w)
      as (Hp & Hu & _); [| done].
    apply steady_bind; [apply steady_startup |]. intros l. apply steady_loop.
  - intros l ticks w w'. subst w'. unfold Main_from.
    destruct (grows_top_level (loop cfg dec ticks l) w) as (Hp & Hu & _); [| done].
    apply steady_loop.
  - intros c k v w Hfit Hin r. subst r.
    destruct (store_open_dec c w) as [Ho | Hno].
    + rewrite (UpdateVote_open _ _ _ _ Ho). unfold table in *.
      destruct (db w) as [t |] eqn:Hdb; simpl in Hin; [| by apply elem_of_nil in Hin].
      simpl in Hfit. rewrite upsert_existing by done. simpl.
      destruct (has_nul v || has_nul k); simpl; [by rewrite Hdb |].
      destruct (varchar 255 v) as [v' |] eqn:Hv; simpl.
      * rewrite ids_set_vote. split; [done |]. intros _ Hfv.
        rewrite (varchar_of_fits v Hfv) in Hv. by injection Hv as <-.
      * rewrite Hdb. done.
    + destruct (UpdateVote_not_open c k v w Hno) as (ex & w1 & -> & Hdb & _).
      simpl. unfold table. rewrite Hdb. done.
Qed.

(** ** What a computation of the worker leaves alone *)

Section Keeps.

Context {X : Type} (f : World -> X).

Lemma keeps_ret {A} (a : A) : keeps f (ret a).
Proof. intros w. done. Qed.

Lemma keeps_throw {A} ex : keeps f (@throw A ex).
Proof. intros w. done. Qed.

Lemma keeps_blocked {A} : keeps f (@blocked A).
Proof. intros w. done. Qed.

Lemma keeps_bind {A B} (m : M A) (k : A -> M B) :
  keeps f m -> (forall a, keeps f (k a)) -> keeps f (bind m k).
Proof.
  intros Hm Hk w. unfold bind. specialize (Hm w).
  destruct (m w) as [[a | ex |] w1]; simpl in *; [| done | done].
  by rewrite Hk.
Qed.

Lemma keeps_try_catch {A} (body handler : M A) :
  keeps f body -> keeps f handler -> keeps f (try_catch_DbException body handler).
Proof.
  intros Hb Hh w. unfold try_catch_DbException. specialize (Hb w).
  destruct (body w) as [[a | ex |] w1]; simpl in *; [done | | done].
  destruct (is_DbException ex); [| done]. by rewrite Hh.
Qed.

(** The parts of the world that do not look at the console or at the
    connection objects are kept by what only writes those. *)
Hypothesis f_console : forall c w, f (with_console c w) = f w.
Hypothesis f_heap : forall h w, f (with_heap h w) = f w.

Lemma keeps_WriteLine s : keeps f (WriteLine s).
Proof. intros w. apply f_console. Qed.

Lemma keeps_Error_WriteLine s : keeps f (Error_WriteLine s).
Proof. intros w. apply f_console. Qed.

Lemma keeps_new_open_connection cs : keeps f (new_open_connection cs).
Proof. intros w. apply f_heap. Qed.

Lemma keeps_Close c : keeps f (Close c).
Proof. intros w. apply f_heap. Qed.

Lemma keeps_get_State c : keeps f (get_State c).
Proof. intros w. done. Qed.

Lemma keeps_happen e : keeps f (happen e).
Proof. intros w. destruct e; simpl; [done | apply f_heap | apply f_heap]. Qed.

Lemma keeps_Connect attempts : keeps f (Connect attempts).
Proof.
  induction attempts as [| [|] rest IH]; simpl.
  - apply keeps_blocked.
  - apply keeps_Error_WriteLine.
  - repeat (apply keeps_bind; [apply keeps_Error_WriteLine | intros _]). exact IH.
Qed.

Lemma keeps_OpenRedisConnection h p attempts : keeps f (OpenRedisConnection h p attempts).
Proof.
  unfold OpenRedisConnection. apply keeps_bind; [apply keeps_WriteLine |].
  intros _. apply keeps_Connect.
Qed.

(** A statement that leaves [f] alone at the server leaves it alone when
    sent over a connection. *)
Lemma keeps_ExecuteNonQuery c cmd :
  (forall w d, execute cmd (db w) = inr d -> f (with_db d w) = f w) ->
  keeps f (ExecuteNonQuery c cmd).
Proof.
  intros Hcmd w. unfold ExecuteNonQuery.
  destruct (heap w !! c) as [conn |]; [| done].
  destruct (decide (State conn = Open)); [| done].
  destruct (link_up conn); [| apply f_heap].
  destruct (execute cmd (db w)) as [e0 | d] eqn:He; [done |].
  simpl. by apply Hcmd.
Qed.

Lemma keeps_OpenDbConnection cs attempts :
  (forall w d, execute CREATE_TABLE_IF_NOT_EXISTS_votes (db w) = inr d ->
               f (with_db d w) = f w) ->
  keeps f (OpenDbConnection cs attempts).
Proof.
  intros Hcreate. induction attempts as [| [| | msg] rest IH]; simpl.
  - apply keeps_blocked.
  - apply keeps_bind; [apply keeps_new_open_connection | intros c].
    apply keeps_bind; [apply keeps_Error_WriteLine | intros _].
    apply keeps_bind; [by apply keeps_ExecuteNonQuery | intros _].
    apply keeps_ret.
  - apply keeps_bind; [apply keeps_Error_WriteLine | intros _]. exact IH.
  - apply keeps_bind; [apply keeps_Error_WriteLine | intros _]. exact IH.
Qed.

End Keeps.

Lemma create_keeps_table w d :
  execute CREATE_TABLE_IF_NOT_EXISTS_votes (db w) = inr d -> table (with_db d w) = table w.
Proof.
  unfold table. simpl. destruct (db w); intros [= <-]; done.
Qed.

Lemma any_keeps_redis_votes cmd w d :
  execute cmd (db w) = inr d -> redis_votes (with_db d w) = redis_votes w.
Proof. done. Qed.

Lemma keeps_table_OpenDbConnection cs attempts : keeps table (OpenDbConnection cs attempts).
Proof. apply keeps_OpenDbConnection; auto using create_keeps_table. Qed.

Lemma keeps_redis_votes_OpenDbConnection cs attempts :
  keeps redis_votes (OpenDbConnection cs attempts).
Proof. apply keeps_OpenDbConnection; done. Qed.

Lemma keeps_redis_votes_UpdateVote c k v : keeps redis_votes (UpdateVote c k v).
Proof.
  unfold UpdateVote. apply keeps_try_catch; by apply keeps_ExecuteNonQuery.
Qed.

Lemma keeps_elim {A X} (f : World -> X) (m : M A) w o w1 :
  keeps f m -> m w = (o, w1) -> f w1 = f w.
Proof. intros Hk Hm. specialize (Hk w). by rewrite Hm in Hk. Qed.

Lemma bind_Return_inv {A B} (m : M A) (k : A -> M B) w b w' :
  bind m k w = (Return b, w') ->
  exists a w1, m w = (Return a, w1) /\ k a w1 = (Return b, w').
Proof.
  unfold bind. destruct (m w) as [[a | ex |] w1]; [eauto | done | done].
Qed.

(** ** One iteration of the loop *)

Section Iteration.

Variable cfg : Config.
Variable dec : string -> Decoded.

Lemma keeps_reconnect_redis {X} (f : World -> X) t :
  (forall c w, f (with_console c w) = f w) ->
  keeps f (reconnect_redis cfg t).
Proof.
  intros Hc. unfold reconnect_redis.
  destruct (redis t); try apply keeps_ret.
  apply keeps_bind; [by apply keeps_WriteLine | intros _].
  by apply keeps_OpenRedisConnection.
Qed.

Lemma keeps_refresh {X} (f : World -> X) t l :
  (forall c w, f (with_console c w) = f w) ->
  (forall h w, f (with_heap h w) = f w) ->
  (forall w d, execute CREATE_TABLE_IF_NOT_EXISTS_votes (db w) = inr d ->
               f (with_db d w) = f w) ->
  keeps f (refresh cfg t l).
Proof.
  intros Hc Hh Hd. unfold refresh. destruct (refresh_due cfg t l); [| apply keeps_ret].
  apply keeps_bind; [by apply keeps_WriteLine | intros _].
  apply keeps_bind; [by apply keeps_Close | intros _].
  apply keeps_bind; [by apply keeps_OpenDbConnection | intros c].
  apply keeps_ret.
Qed.

Lemma decode_Return_inv json v w w1 :
  decode dec json w = (Return v, w1) ->
  dec json = Object v /\ redis_votes w1 = redis_votes w /\ table w1 = table w
  /\ heap w1 = heap w.
Proof.
  unfold decode. destruct (dec json) as [| | s]; [done | done |].
  intros Hb. apply bind_Return_inv in Hb as ([] & w2 & Hw & Hr).
  injection Hw as <-. injection Hr as <- <-. done.
Qed.

(** What [poll] has done when it returns: with nothing queued, nothing;
    otherwise it has taken the record at the head, which decoded, and the
    table is as it was. *)
Lemma poll_Return_inv t l w r w1 :
  poll cfg dec t l w = (Return r, w1) ->
  match redis_votes w with
  | [] => r = None /\ redis_votes w1 = [] /\ table w1 = table w
          /\ length (heap w1) = length (heap w)
  | json :: rest =>
      exists v l1, dec json = Object v /\ r = Some (v, l1)
                   /\ redis_votes w1 = rest /\ table w1 = table w
  end.
Proof.
  intros Hp. unfold poll in Hp.
  apply bind_Return_inv in Hp as ([] & w0 & Hev & Hp).
  apply bind_Return_inv in Hp as ([] & wa & Hpre & Hp).
  apply bind_Return_inv in Hp as (json & wb & Hpop & Hp).
  assert (redis_votes wa = redis_votes w) as Hq.
  { rewrite (keeps_elim redis_votes _ _ _ _ (keeps_reconnect_redis redis_votes t
      (fun _ _ => eq_refl)) Hpre).
    apply (keeps_elim redis_votes _ _ _ _ (keeps_happen redis_votes
      (fun _ _ => eq_refl) (during_sleep t)) Hev). }
  assert (table wa = table w) as Ht.
  { rewrite (keeps_elim table _ _ _ _ (keeps_reconnect_redis table t
      (fun _ _ => eq_refl)) Hpre).
    apply (keeps_elim table _ _ _ _ (keeps_happen table
      (fun _ _ => eq_refl) (during_sleep t)) Hev). }
  unfold ListLeftPop in Hpop. rewrite Hq in Hpop.
  destruct (redis_votes w) as [| j q].
  - assert (json = None /\ wb = wa) as [-> ->].
    { destruct (redis t); by simplify_eq. }
    injection Hp as <- <-. split; [done |]. split; [done |]. split; [done |].
    rewrite (keeps_elim (fun w => length (heap w)) _ _ _ _
      (keeps_reconnect_redis (fun w => length (heap w)) t (fun _ _ => eq_refl)) Hpre).
    unfold happen in Hev.
    destruct (during_sleep t); injection Hev as <-; simpl;
      by rewrite ?length_map.
  - assert (json = Some j /\ wb = with_redis_votes q wa) as [-> ->].
    { destruct (redis t); by simplify_eq. }
    apply bind_Return_inv in Hp as (v & wc & Hdec & Hp).
    apply bind_Return_inv in Hp as (l1 & wd & Href & Hp).
    injection Hp as <- <-.
    apply decode_Return_inv in Hdec as (Hv & Hq1 & Ht1 & _).
    exists v, l1. split; [done |]. split; [done |].
    rewrite (keeps_elim redis_votes _ _ _ _ (keeps_refresh redis_votes t l
      (fun _ _ => eq_refl) (fun _ _ => eq_refl) (fun _ _ _ => eq_refl)) Href).
    rewrite (keeps_elim table _ _ _ _ (keeps_refresh table t l
      (fun _ _ => eq_refl) (fun _ _ => eq_refl) create_keeps_table) Href).
    rewrite Hq1, Ht1. done.
Qed.

End Iteration.

(** ** The row of a voter *)

Lemma rows_of_absent k t : k ∉ ids t -> rows_of k t = [].
Proof.
  unfold rows_of. induction t as [| r t IH]; simpl; [done |].
  intros Hk. apply not_elem_of_cons in Hk as [Hr Ht].
  rewrite filter_cons_False by congruence. auto.
Qed.

Lemma rows_of_set_vote k v t :
  unique_ids t -> k ∈ ids t -> rows_of k (map (set_vote k v) t) = [mkRow k v].
Proof.
  unfold unique_ids, rows_of. induction t as [| r t IH]; simpl.
  - intros _ Hk. by apply elem_of_nil in Hk.
  - intros Hnd Hk. apply NoDup_cons in Hnd as [Hr Hnd].
    unfold set_vote at 1. destruct (decide (Pg.id r = k)) as [Heq | Hne].
    + subst k. rewrite filter_cons_True by done.
      rewrite set_vote_absent by done.
      fold (rows_of (Pg.id r) t). by rewrite rows_of_absent.
    + rewrite filter_cons_False by done. apply IH; [done |].
      apply elem_of_cons in Hk as [Hk | Hk]; [congruence | done].
Qed.

(** Once the two statements of [UpdateVote] have gone through for a voter
    identity and a choice that fit the columns, the voter has one row, and
    it holds that choice. *)
Lemma upsert_row k v d d1 :
  upsert k v d = inr d1 -> fits k -> fits v -> schema_ok (default [] d) ->
  rows_of k (default [] d1) = [mkRow k v] /\ schema_ok (default [] d1).
Proof.
  intros Hup Hk Hv [Hu Hc]. unfold upsert in Hup.
  destruct d as [t |]; [| done]. simpl in *.
  destruct (has_nul k), (has_nul v); simpl in Hup; try done.
  rewrite (varchar_of_fits k Hk), (varchar_of_fits v Hv) in Hup.
  destruct (has_id k t) eqn:Hhas.
  - injection Hup as <-. simpl. apply has_id_elem_of in Hhas.
    split; [by apply rows_of_set_vote |]. split.
    + unfold unique_ids. by rewrite ids_set_vote.
    + by apply within_columns_update.
  - injection Hup as <-. simpl. apply has_id_false in Hhas. split.
    + unfold rows_of. rewrite filter_app. fold (rows_of k t).
      rewrite rows_of_absent by done. simpl. by rewrite filter_cons_True.
    + split; [by apply unique_ids_insert | by apply within_columns_insert].
Qed.

(** ** Writing, or reconnecting *)

Section Write.

Variable cfg : Config.
Variable dec : string -> Decoded.

Lemma write_open t l v w :
  store_open (pgsql l) w ->
  write t l v w = (UpdateVote (pgsql l) (voter_id v) (Worker.vote v) ;; ret l) w.
Proof.
  intros Ho. unfold write. unfold bind at 1.
  rewrite (store_open_State _ _ Ho). by destruct (decide (Open = Open)).
Qed.

Lemma write_not_open t l v w :
  from_option State Closed (heap w !! pgsql l) <> Open ->
  write t l v w =
    (WriteLine "Reconnecting DB" ;;
     connection <- OpenDbConnection (dbConnectionString l) (Open_attempts t) ;;
     ret (with_pgsql connection l)) w.
Proof.
  intros Hs. unfold write. unfold bind at 1. unfold get_State.
  by destruct (decide (from_option State Closed (heap w !! pgsql l) = Open)).
Qed.

(** An iteration that finds a record, with the store connection open when
    it comes to write, and returns: the record is off the queue and both
    statements of [UpdateVote] have gone through for it. *)
Lemma iteration_writes t l w json rest l' w' :
  redis_votes w = json :: rest ->
  (forall v l1 w1,
      poll cfg dec t l w = (Return (Some (v, l1)), w1) -> store_open (pgsql l1) w1) ->
  iteration cfg dec t l w = (Return l', w') ->
  exists v d0 d,
    dec json = Object v /\ redis_votes w' = rest
    /\ default [] d0 = table w
    /\ upsert (voter_id v) (Worker.vote v) d0 = inr d /\ db w' = d.
Proof.
  intros Hq Hopen Hit. unfold iteration in Hit.
  apply bind_Return_inv in Hit as (r & w1 & Hp & Hit).
  pose proof (poll_Return_inv cfg dec t l w r w1 Hp) as Hinv. rewrite Hq in Hinv.
  destruct Hinv as (v & l1 & Hv & -> & Hq1 & Ht1).
  specialize (Hopen v l1 w1 Hp). rewrite (write_open _ _ _ _ Hopen) in Hit.
  apply bind_Return_inv in Hit as ([] & w2 & Hup & Hit). injection Hit as <- <-.
  rewrite (UpdateVote_open _ _ _ _ Hopen) in Hup.
  destruct (upsert (voter_id v) (Worker.vote v) (db w1)) as [e | d] eqn:Hd; [done |].
  injection Hup as <-. exists v, (db w1), d. done.
Qed.

(** An iteration that finds nothing queued and returns has left the
    table and the locals as they were. *)
Lemma iteration_idle t l w l' w' :
  redis_votes w = [] ->
  iteration cfg dec t l w = (Return l', w') ->
  l' = l /\ redis_votes w' = [] /\ table w' = table w /\ length (heap w') = length (heap w).
Proof.
  intros Hq Hit. unfold iteration in Hit.
  apply bind_Return_inv in Hit as (r & w1 & Hp & Hit).
  pose proof (poll_Return_inv cfg dec t l w r w1 Hp) as Hinv. rewrite Hq in Hinv.
  destruct Hinv as (-> & Hq1 & Ht1 & Hh1).
  apply bind_Return_inv in Hit as ([] & w2 & Hka & Hit). injection Hit as <- <-.
  split; [done |].
  rewrite (keeps_elim redis_votes _ _ _ _
    (keeps_ExecuteNonQuery redis_votes (fun _ _ => eq_refl) _ SELECT_1
       (fun _ _ _ => eq_refl)) Hka).
  split; [done |].
  assert (table w2 = table w1) as ->.
  { apply (keeps_elim table _ _ _ _
      (keeps_ExecuteNonQuery table (fun _ _ => eq_refl) _ SELECT_1
         (fun w d H => ltac:(by injection H as <-))) Hka). }
  split; [done |].
  rewrite <- Hh1. f_equal. unfold ExecuteNonQuery in Hka.
  destruct (heap w1 !! keepAliveCommand l) as [conn |]; [| done].
  destruct (decide (State conn = Open)); [| done].
  destruct (link_up conn); [| done].
  simpl in Hka. by injection Hka as <-.
Qed.

End Write.

(** ** Running an iteration forward *)

Lemma bind_Return {A B} (m : M A) (k : A -> M B) w a w1 :
  m w = (Return a, w1) -> bind m k w = k a w1.
Proof. intros Hm. unfold bind. by rewrite Hm. Qed.

Lemma bind_Throw {A B} (m : M A) (k : A -> M B) w ex w1 :
  m w = (Throw ex, w1) -> bind m k w = (Throw ex, w1).
Proof. intros Hm. unfold bind. by rewrite Hm. Qed.

Lemma bind_Blocked {A B} (m : M A) (k : A -> M B) w w1 :
  m w = (Blocked, w1) -> bind m k w = (Blocked, w1).
Proof. intros Hm. unfold bind. by rewrite Hm. Qed.

Lemma Connect_serves attempts w :
  true ∈ attempts ->
  exists lines, Connect attempts w = (Return tt, with_console (console w ++ lines) w).
Proof.
  revert w. induction attempts as [| [|] rest IH]; intros w Hin.
  - by apply elem_of_nil in Hin.
  - exists [stderr "Connecting to redis"]. done.
  - apply elem_of_cons in Hin as [Hin | Hin]; [done |].
    simpl. unfold bind, Error_WriteLine.
    match goal with |- context [Connect rest ?w0] =>
      destruct (IH w0 Hin) as (lines & Hc) end.
    rewrite Hc.
    exists ([stderr "Connecting to redis"; stderr "Waiting for redis"] ++ lines).
    destruct w. unfold with_console. simpl. by rewrite <- !app_assoc.
Qed.

Section Forward.

Variable cfg : Config.
Variable dec : string -> Decoded.

Lemma reconnect_redis_serves t w :
  redis_serves t ->
  exists lines, reconnect_redis cfg t w = (Return tt, with_console (console w ++ lines) w).
Proof.
  unfold redis_serves, reconnect_redis. destruct (redis t) as [| attempts |]; [| | done].
  - intros _. exists []. unfold ret. destruct w. unfold with_console. simpl.
    by rewrite app_nil_r.
  - intros Hin. unfold OpenRedisConnection, bind, WriteLine.
    match goal with |- context [Connect attempts ?w0] =>
      destruct (Connect_serves attempts w0 Hin) as (lines & Hc) end.
    rewrite Hc. eexists ([_; _] ++ lines). destruct w. unfold with_console. simpl.
    by rewrite <- !app_assoc.
Qed.

Lemma ListLeftPop_serves t w :
  redis_serves t ->
  ListLeftPop (redis t) w =
    match redis_votes w with
    | [] => (Return None, w)
    | json :: rest => (Return (Some json), with_redis_votes rest w)
    end.
Proof. unfold redis_serves, ListLeftPop. by destruct (redis t). Qed.

(** The world when the pop has been made: after the sleep and the Redis
    check. *)
Lemma poll_serves t l w :
  redis_serves t ->
  exists lines,
    let wa := with_console (console w ++ lines) (snd (happen (during_sleep t) w)) in
    poll cfg dec t l w =
      match redis_votes w with
      | [] => (Return None, wa)
      | json :: rest =>
          (v <- decode dec json ;;
           l' <- refresh cfg t l ;;
           ret (Some (v, l'))) (with_redis_votes rest wa)
      end.
Proof.
  intros Hs. unfold poll.
  assert (exists w0, happen (during_sleep t) w = (Return tt, w0)
                     /\ redis_votes w0 = redis_votes w /\ console w0 = console w)
    as (w0 & Hev & Hq0 & Hc0).
  { unfold happen. destruct (during_sleep t); eauto. }
  rewrite (bind_Return _ _ _ _ _ Hev). rewrite Hev. simpl.
  destruct (reconnect_redis_serves t w0 Hs) as (lines & Hre).
  rewrite (bind_Return _ _ _ _ _ Hre). exists lines. rewrite Hc0.
  unfold bind at 1. rewrite (ListLeftPop_serves _ _ Hs). simpl. rewrite Hq0.
  by destruct (redis_votes w).
Qed.

(** [OpenDbConnection] with an attempt that is accepted: it returns a
    new connection, open, and the table is as it was. *)
Lemma OpenDbConnection_accepted cs attempts w :
  Accepted ∈ attempts ->
  exists w',
    OpenDbConnection cs attempts w = (Return (length (heap w)), w')
    /\ heap w' = heap w ++ [mkConn Open true cs]
    /\ table w' = table w /\ redis_votes w' = redis_votes w
    /\ db w' = Some (table w).
Proof.
  revert w. induction attempts as [| a rest IH]; intros w Hin.
  - by apply elem_of_nil in Hin.
  - destruct a as [| | msg].
    + simpl. unfold bind, new_open_connection, Error_WriteLine, ExecuteNonQuery. simpl.
      rewrite lookup_app_r by done. rewrite Nat.sub_diag. simpl.
      destruct (decide (Open = Open)); [| done].
      unfold table. destruct (db w); simpl; eauto 10.
    + apply elem_of_cons in Hin as [Hin | Hin]; [done |].
      simpl. unfold bind at 1. unfold Error_WriteLine.
      match goal with |- context [OpenDbConnection cs rest ?w0] =>
        destruct (IH w0 Hin) as (w' & Ho & Hh & Ht & Hq & Hd) end.
      exists w'. done.
    + apply elem_of_cons in Hin as [Hin | Hin]; [done |].
      simpl. unfold bind at 1. unfold Error_WriteLine.
      match goal with |- context [OpenDbConnection cs rest ?w0] =>
        destruct (IH w0 Hin) as (w' & Ho & Hh & Ht & Hq & Hd) end.
      exists w'. done.
Qed.

(** With no attempt accepted, it is still retrying. *)
Lemma OpenDbConnection_waiting cs attempts w :
  Accepted ∉ attempts -> fst (OpenDbConnection cs attempts w) = Blocked.
Proof.
  revert w. induction attempts as [| a rest IH]; intros w Hin; [done |].
  apply not_elem_of_cons in Hin as [Ha Hin].
  destruct a as [| | msg]; [done | |]; simpl; unfold bind at 1; simpl; by apply IH.
Qed.

End Forward.

Lemma happen_db e w : db (snd (happen e w)) = db w.
Proof. by destruct e. Qed.

Lemma happen_redis_votes e w : redis_votes (snd (happen e w)) = redis_votes w.
Proof. by destruct e. Qed.

(** ** Progress of the loop *)

Lemma upsert_total k v t :
  storable k -> storable v -> exists t', upsert k v (Some t) = inr (Some t').
Proof.
  intros [Hk Hnk] [Hv Hnv]. unfold upsert. simpl. rewrite Hnk, Hnv. simpl.
  rewrite (varchar_of_fits k Hk), (varchar_of_fits v Hv).
  destruct (has_id k t); eauto.
Qed.

(** A parameter that holds U+0000: both statements of [UpdateVote] are
    refused. *)
Lemma upsert_nul k v t :
  has_nul k || has_nul v = true ->
  upsert k v (Some t) = inl character_not_in_repertoire.
Proof.
  intros Hn. unfold upsert. simpl. rewrite Hn. by rewrite orb_comm, Hn.
Qed.

Section Progress.

Variable cfg : Config.
Variable dec : string -> Decoded.

Lemma refresh_total t l w :
  Accepted ∈ Open_attempts t ->
  exists l1 w1,
    refresh cfg t l w = (Return l1, w1)
    /\ redis_votes w1 = redis_votes w
    /\ (is_Some (db w) -> is_Some (db w1)).
Proof.
  intros Hacc. unfold refresh. destruct (refresh_due cfg t l); [| by exists l, w].
  unfold bind at 1 2, WriteLine, Close.
  match goal with |- context [bind (OpenDbConnection ?cs ?a) ?k ?w0] =>
    destruct (OpenDbConnection_accepted cs a w0 Hacc) as (w1 & Ho & _ & _ & Hq & Hd);
    rewrite (bind_Return (OpenDbConnection cs a) k w0 _ _ Ho) end.
  eexists _, w1. split; [done |]. split; [done |]. intros _. by rewrite Hd.
Qed.

(** With Redis serving and the store accepting connections, an iteration
    that finds a record which decodes to a Submission of storable
    values, and the store connection open when it comes to write,
    returns, with the record off the queue. *)
Lemma iteration_total t l w json rest v :
  redis_serves t -> Accepted ∈ Open_attempts t ->
  redis_votes w = json :: rest -> dec json = Object v ->
  storable (voter_id v) -> storable (Worker.vote v) -> is_Some (db w) ->
  (forall v l1 w1,
      poll cfg dec t l w = (Return (Some (v, l1)), w1) -> store_open (pgsql l1) w1) ->
  exists l' w',
    iteration cfg dec t l w = (Return l', w')
    /\ redis_votes w' = rest /\ is_Some (db w').
Proof.
  intros Hs Hacc Hq Hdec Hk Hv Hdb Hopen.
  destruct (poll_serves cfg dec t l w Hs) as (lines & Hp). simpl in Hp.
  rewrite Hq in Hp.
  match type of Hp with _ = _ ?w0 => set (wa := w0) in * end.
  assert (is_Some (db wa)) as Hdba.
  { subst wa. simpl. by rewrite happen_db. }
  unfold decode in Hp. rewrite Hdec in Hp.
  unfold bind at 1 2, WriteLine at 1, ret at 1 in Hp.
  match type of Hp with _ = bind (refresh _ _ _) _ ?w0 => set (wb := w0) in * end.
  destruct (refresh_total t l wb Hacc) as (l1 & w1 & Href & Hq1 & Hdb1).
  rewrite (bind_Return _ _ _ _ _ Href) in Hp. unfold ret in Hp.
  specialize (Hopen v l1 w1 Hp). unfold iteration.
  rewrite (bind_Return _ _ _ _ _ Hp), (write_open _ _ _ _ Hopen).
  unfold bind. rewrite (UpdateVote_open _ _ _ _ Hopen).
  destruct (Hdb1 Hdba) as [t1 Ht1]. rewrite Ht1.
  destruct (upsert_total (voter_id v) (Worker.vote v) t1 Hk Hv) as (t' & ->).
  eexists _, _. split; [done |]. split; [simpl; by rewrite Hq1 |]. by eexists.
Qed.

Lemma loop_total ticks :
  forall l w subs,
    Forall2 (fun json s => dec json = Object s) (redis_votes w) subs ->
    Forall (fun s => storable (voter_id s) /\ storable (Worker.vote s)) subs ->
    is_Some (db w) ->
    length ticks = length subs ->
    Forall (fun t => redis_serves t /\ Accepted ∈ Open_attempts t) ticks ->
    open_at_each_write cfg dec ticks l w ->
    exists l' w', loop cfg dec ticks l w = (Return l', w') /\ redis_votes w' = [].
Proof.
  induction ticks as [| t rest IH]; intros l w subs Hdec Hsubs Hdb Hlen Henv Hopen.
  - destruct subs; [| done]. apply Forall2_nil_inv_r in Hdec. by exists l, w.
  - destruct subs as [| s ss]; [done |].
    apply Forall2_cons_inv_r in Hdec as (json & q & Hs & Hss & Hq).
    apply Forall_cons in Hsubs as [[Hvoter Hvote] Hsubs].
    apply Forall_cons in Henv as [[Hserves Hacc] Henv].
    destruct Hopen as [Hnow Hlater].
    destruct (iteration_total t l w json q s Hserves Hacc Hq Hs) as (l1 & w1 & Hit & Hq1 & Hdb1);
      [done | done | done | done |].
    simpl. rewrite (bind_Return _ _ _ _ _ Hit).
    apply (IH l1 w1 ss); try done.
    + by rewrite Hq1.
    + by injection Hlen.
    + by apply Hlater.
Qed.

End Progress.

(** ** Last write wins *)

Section Drain.

Variable cfg : Config.
Variable dec : string -> Decoded.

Lemma drain k ticks :
  forall l w l' w' subs,
    Forall2 (fun json s => dec json = Object s) (redis_votes w) subs ->
    Forall (fun s => voter_id s = k /\ fits (Worker.vote s)) subs -> fits k ->
    schema_ok (table w) ->
    open_at_each_write cfg dec ticks l w ->
    loop cfg dec ticks l w = (Return l', w') -> redis_votes w' = [] ->
    schema_ok (table w')
    /\ match last subs with
       | Some s => rows_of k (table w') = [mkRow k (Worker.vote s)]
       | None => table w' = table w
       end.
Proof.
  induction ticks as [| t rest IH]; intros l w l' w' subs Hdec Hsubs Hk Hok Hopen Hloop Hq.
  - injection Hloop as <- <-. rewrite Hq in Hdec.
    apply Forall2_nil_inv_l in Hdec as ->. done.
  - simpl in Hloop. apply bind_Return_inv in Hloop as (l1 & w1 & Hit & Hloop).
    destruct Hopen as [Hnow Hlater]. specialize (Hlater l1 w1 Hit).
    destruct (redis_votes w) as [| json q] eqn:Hqw.
    + apply Forall2_nil_inv_l in Hdec as ->.
      destruct (iteration_idle cfg dec t l w l1 w1 Hqw Hit) as (_ & Hq1 & Ht1 & _).
      destruct (IH l1 w1 l' w' []) as [Hok' Hsame]; try done.
      * rewrite Hq1. constructor.
      * by rewrite Ht1.
      * simpl in *. split; [done | congruence].
    + apply Forall2_cons_inv_l in Hdec as (s & ss & Hs & Hss & ->).
      destruct (iteration_writes cfg dec t l w json q l1 w1 Hqw Hnow Hit)
        as (v & d0 & d & Hv & Hq1 & Hd0 & Hup & Hd).
      assert (v = s) as -> by congruence.
      apply Forall_cons in Hsubs as [[Hvoter Hvote] Hsubs].
      rewrite <- Hd0 in Hok. rewrite Hvoter in Hup.
      destruct (upsert_row k (Worker.vote s) d0 d Hup Hk Hvote Hok) as [Hrow Hok1].
      assert (table w1 = default [] d) as Ht1 by (unfold table; by rewrite Hd).
      destruct (IH l1 w1 l' w' ss) as [Hok' Hlast]; try done.
      * by rewrite Hq1.
      * by rewrite Ht1.
      * split; [done |]. rewrite last_cons.
        destruct (last ss) as [s' |]; [done |]. by rewrite Hlast, Ht1.
Qed.

End Drain.

(** C1, as the code has it. For every sequence of Submissions of one
    voter identity, which like their choices is storable (at most the 255
    characters of the columns, and without the character U+0000, which
    the server refuses), drained in enqueue order by one worker with the
    store connection open at each write: once the queue is empty the
    voter has one row in the table, and it holds the choice of the last
    Submission of the sequence. And the queue does get empty: with the
    table in place, Redis serving and the store accepting connections, as
    many iterations as there are Submissions drain it. *)
Theorem last_write_wins cfg dec ticks l w subs k last_s :
  Forall2 (fun json s => dec json = Object s) (redis_votes w) subs ->
  Forall (fun s => voter_id s = k /\ storable (Worker.vote s)) subs ->
  storable k ->
  last subs = Some last_s ->
  schema_ok (table w) ->
  open_at_each_write cfg dec ticks l w ->
  (forall l' w',
      loop cfg dec ticks l w = (Return l', w') ->
      redis_votes w' = [] ->
      rows_of k (table w') = [mkRow k (Worker.vote last_s)])
  /\ (is_Some (db w) ->
      length ticks = length subs ->
      Forall (fun t => redis_serves t /\ Accepted ∈ Open_attempts t) ticks ->
      exists l' w', loop cfg dec ticks l w = (Return l', w') /\ redis_votes w' = []).
Proof.
  intros Hdec Hsubs Hk Hlast Hok Hopen. split.
  - intros l' w' Hloop Hq.
    destruct (drain cfg dec k ticks l w l' w' subs) as [_ Hrow]; try done.
    + eapply Forall_impl; [exact Hsubs |]. by intros s [Hv [Hf _]].
    + by destruct Hk.
    + by rewrite Hlast in Hrow.
  - intros Hdb Hlen Henv. apply (loop_total cfg dec ticks l w subs); try done.
    eapply Forall_impl; [exact Hsubs |]. intros s [-> Hv]. done.
Qed.

(** ** Exceptions that leave the loop *)

(** C3, as the code has it. For every queue record that fails to decode,
    once it is popped: the record is dropped (it is off the queue and the
    table is untouched), the exception leaves the loop, the top-level
    handler writes it to the error stream, and [Main] returns 1. The
    iterations that would have followed do not take place. *)
Theorem decode_failure_exits cfg dec t ticks l w json rest :
  redis_votes w = json :: rest ->
  dec json = Malformed ->
  redis_serves t ->
  exists w',
    Main_from cfg dec l (t :: ticks) w = (Exited 1, w')
    /\ redis_votes w' = rest
    /\ table w' = table w
    /\ last (console w') = Some (stderr (ToString JsonException)).
Proof.
  intros Hq Hdec Hs. unfold Main_from, top_level. simpl. unfold iteration.
  destruct (poll_serves cfg dec t l w Hs) as (lines & Hp). simpl in Hp.
  rewrite Hq in Hp.
  match type of Hp with _ = _ ?w0 => set (wa := w0) in * end.
  assert (poll cfg dec t l w = (Throw JsonException, wa)) as Hthrow.
  { rewrite Hp. apply bind_Throw. unfold decode. by rewrite Hdec. }
  unfold bind at 1 2. rewrite Hthrow. eexists. split; [done |].
  split; [done |]. split.
  - unfold table. simpl. by rewrite happen_db.
  - simpl. by rewrite last_snoc.
Qed.

(** C10. There are runs of the worker in which the keep-alive throws and
    the process returns 1. Whenever nothing is queued and the connection
    of the keep-alive command is not open, or its session is dead, the
    exception of [ExecuteNonQuery] leaves the loop and [Main] writes it to
    the error stream and returns 1; and such a state is reached from the
    start of [Main] by losing the store connection during a sleep, either
    way of losing it. *)
Theorem keep_alive_failure_exits cfg dec :
  (forall t ticks l w,
      redis_votes w = [] ->
      redis_serves t ->
      ~ store_open (keepAliveCommand l) (snd (happen (during_sleep t) w)) ->
      exists w' ex,
        Main_from cfg dec l (t :: ticks) w = (Exited 1, w')
        /\ last (console w') = Some (stderr (ToString ex)))
  /\ (forall ticks,
      exists w',
        Main cfg dec (Fixture.quiet 0)
          (mkTick ConnectionBroken IsConnected 100 100 "token" [] :: ticks)
          Fixture.fresh = (Exited 1, w')
        /\ last (console w') = Some (stderr (ToString InvalidOperationException)))
  /\ (forall ticks,
      exists w',
        Main cfg dec (Fixture.quiet 0)
          (mkTick LinkLost IsConnected 100 100 "token" [] :: ticks)
          Fixture.fresh = (Exited 1, w')
        /\ last (console w') = Some (stderr (ToString NpgsqlException))).
Proof.
  split; [| split].
  - intros t ticks l w Hq Hs Hno. unfold Main_from, top_level. simpl. unfold iteration.
    destruct (poll_serves cfg dec t l w Hs) as (lines & Hp). simpl in Hp.
    rewrite Hq in Hp.
    match type of Hp with _ = (_, ?w0) => set (wa := w0) in * end.
    assert (exists ex wb,
               ExecuteNonQuery (keepAliveCommand l) SELECT_1 wa = (Throw ex, wb))
      as (ex & wb & Hka).
    { unfold ExecuteNonQuery. subst wa. simpl.
      destruct (heap (happen (during_sleep t) w).2 !! keepAliveCommand l)
        as [conn |] eqn:Hc; [| eauto].
      destruct (decide (State conn = Open)) as [Hst | Hst]; [| eauto].
      destruct (link_up conn) eqn:Hl; [| eauto].
      exfalso. apply Hno. exists conn. done. }
    unfold bind at 1 2. rewrite Hp. unfold bind. rewrite Hka.
    eexists. exists ex. split; [done |]. simpl. by rewrite last_snoc.
  - intros ticks. unfold Main, top_level, startup.
    destruct (useIamAuth cfg); cbn; eexists; (split; [reflexivity | done]).
  - intros ticks. unfold Main, top_level, startup.
    destruct (useIamAuth cfg); cbn; eexists; (split; [reflexivity | done]).
Qed.

Lemma happen_length e w : length (heap (snd (happen e w))) = length (heap w).
Proof. destruct e; simpl; by rewrite ?length_map. Qed.

(** ** The token refresh *)


(** ** The write, and the reconnection that takes its place *)

(** C5, as the code has it. For every Submission popped, the iteration
    goes on with lines 103 to 112: if the store connection reports open,
    [UpdateVote] is called for it; if it does not, the worker reopens it,
    retrying for as long as no attempt is accepted, and does nothing
    else: the Submission is not written and not re-queued, also when the
    reopening succeeds. *)
Theorem write_or_reconnect cfg dec t l v w :
  (forall l0 w0,
      poll cfg dec t l0 w0 = (Return (Some (v, l)), w) ->
      iteration cfg dec t l0 w0 = write t l v w)
  /\ (from_option State Closed (heap w !! pgsql l) = Open ->
      write t l v w = (UpdateVote (pgsql l) (voter_id v) (Worker.vote v) ;; ret l) w)
  /\ (from_option State Closed (heap w !! pgsql l) <> Open ->
      let r := write t l v w in
      table (snd r) = table w
      /\ redis_votes (snd r) = redis_votes w
      /\ (Accepted ∈ Open_attempts t ->
          fst r = Return (with_pgsql (length (heap w)) l)
          /\ store_open (length (heap w)) (snd r))
      /\ (Accepted ∉ Open_attempts t -> fst r = Blocked)).
Proof.
  split; [| split].
  - intros l0 w0 Hp. unfold iteration. by rewrite (bind_Return _ _ _ _ _ Hp).
  - intros Hs. unfold write. unfold bind at 1. unfold get_State. rewrite Hs.
    by destruct (decide (Open = Open)).
  - intros Hs.
    set (w0 := with_console (console w ++ [stdout "Reconnecting DB"]) w).
    assert (write t l v w =
              (connection <- OpenDbConnection (dbConnectionString l) (Open_attempts t) ;;
               ret (with_pgsql connection l)) w0) as ->.
    { by rewrite (write_not_open _ _ _ _ Hs). }
    intros r. subst r. split; [| split; [| split]].
    + change (table w) with (table w0).
      apply (keeps_bind table); [apply keeps_table_OpenDbConnection |].
      intros c. apply keeps_ret.
    + change (redis_votes w) with (redis_votes w0).
      apply (keeps_bind redis_votes); [apply keeps_redis_votes_OpenDbConnection |].
      intros c. apply keeps_ret.
    + intros Hacc.
      destruct (OpenDbConnection_accepted (dbConnectionString l) _ w0 Hacc)
        as (w1 & Ho & Hh & _).
      rewrite (bind_Return _ _ _ _ _ Ho). simpl. split; [done |].
      exists (mkConn Open true (dbConnectionString l)). rewrite Hh. simpl.
      rewrite lookup_app_r by done. by rewrite Nat.sub_diag.
    + intros Hacc.
      pose proof (OpenDbConnection_waiting (dbConnectionString l) _ w0 Hacc) as Hb.
      unfold bind.
      destruct (OpenDbConnection (dbConnectionString l) (Open_attempts t) w0)
        as [[c | ex |] w1]; simpl in Hb; done.
Qed.

(** * The aggregator *)

Import Result.

Lemma getVotes_app before after :
  getVotes (before ++ after) = flat_map cycle before ++ getVotes after.
Proof.
  induction before as [| q before IH]; simpl; [done |].
  rewrite IH. by rewrite <- app_assoc.
Qed.

(** ** The text of a count, read back by [parseInt] *)







(** ** The grouping query and the snapshot collected from it *)











(** C9. In every cycle in which the query fails, whatever came before and
    whatever comes after, the aggregator writes the error to the console,
    emits nothing, and sets the timer of one second; and the loop goes on:
    the next thing it does is the query of the next cycle. *)
Theorem query_failure_skips_broadcast before e after :
  getVotes (before ++ err e :: after)
    = flat_map cycle before
      ++ [client_query; console_error ("Error performing query: " +:+ e); setTimeout 1000]
      ++ getVotes after
  /\ existsb is_emit (cycle (err e)) = false
  /\ exists rest, getVotes after = client_query :: rest.
Proof.
  split; [| split].
  - by rewrite getVotes_app.
  - done.
  - destruct after as [| q after]; simpl; eauto.
Qed.

(** * The intake *)

(** C6, as the code has it. [hello] does not look at the value of the
    choice: a form post that carries the field [vote], made while the
    error simulation is off and Redis answers, is pushed onto the queue
    with the value as it came, whatever it is. Only a post without the
    field is rejected before the push. *)
Theorem hello_enqueues_any_choice json_dumps req getrandbits app :
  Vote.method req = Vote.POST ->
  Vote.ERROR_SIM_ENABLED app = false ->
  Vote.redis_up app = true ->
  (forall choice,
      Vote.form req !! "vote" = Some choice ->
      Vote.redis_votes (snd (Vote.hello json_dumps req getrandbits app))
      = Vote.redis_votes app
        ++ [json_dumps [("voter_id", Vote.identity req getrandbits); ("vote", choice)]])
  /\ (Vote.form req !! "vote" = None ->
      Vote.hello json_dumps req getrandbits app = (inl Vote.BadRequestKeyError, app)).
Proof.
  intros Hm Hsim Hup. unfold Vote.hello. rewrite Hm, Hsim, Hup. split.
  - intros choice Hc. by rewrite Hc.
  - intros Hc. by rewrite Hc.
Qed.

(** * The theorems at work on examples *)

Import Fixture.

Ltac evaluated H := vm_compute in H; simplify_eq.

Ltac open_now := eexists; split; [reflexivity | split; reflexivity].

Ltac storable_now := split; [unfold fits; simpl; lia | reflexivity].

Lemma UpdateVote_idempotent_witness :
  within_columns (table (serving []))
  /\ table (snd (UpdateVote 0 "abc" "a" (snd (UpdateVote 0 "abc" "a" (serving [])))))
     = table (snd (UpdateVote 0 "abc" "a" (serving []))).
Proof.
  assert (within_columns (table (serving []))) as H by apply Forall_nil_2.
  split; [exact H |].
  exact (proj1 (UpdateVote_idempotent 0 "abc" "a" (serving []) H)).
Defined.

Lemma tally_invariant_witness :
  within_columns (table (voted []))
  /\ "abc" ∈ ids (table (voted []))
  /\ table (snd (UpdateVote 0 "abc" "b" (voted []))) = [mkRow "abc" "b"]
  /\ unique_ids (table (snd (Main_from (cfg false) DeserializeAnonymousType
                               locals0 [quiet 0] (voted [json_b])))).
Proof.
  assert (within_columns (table (voted []))) as Hfit.
  { apply Forall_singleton. unfold fits. simpl. lia. }
  assert ("abc" ∈ ids (table (voted []))) as Hin by apply list_elem_of_here.
  split; [exact Hfit |]. split; [exact Hin |]. split.
  - apply (proj2 (proj2 (proj2 (tally_invariant (cfg false) DeserializeAnonymousType))
                         0 "abc" "b" (voted []) Hfit Hin)).
    + reflexivity.
    + unfold fits. simpl. lia.
  - apply (proj1 (proj2 (tally_invariant (cfg false) DeserializeAnonymousType))
             locals0 [quiet 0] (voted [json_b])).
    apply NoDup_singleton.
Defined.

Lemma last_write_wins_witness :
  open_at_each_write (cfg false) DeserializeAnonymousType
    [quiet 0; quiet 100] locals0 (serving [json_a; json_b])
  /\ exists l' w',
      loop (cfg false) DeserializeAnonymousType
        [quiet 0; quiet 100] locals0 (serving [json_a; json_b]) = (Return l', w')
      /\ redis_votes w' = []
      /\ rows_of "abc" (table w') = [mkRow "abc" "b"].
Proof.
  assert (open_at_each_write (cfg false) DeserializeAnonymousType
            [quiet 0; quiet 100] locals0 (serving [json_a; json_b])) as Hopen.
  { split; [intros v l1 w1 H; evaluated H; open_now |].
    intros l1 w1 H. evaluated H.
    split; [intros v l2 w2 H; evaluated H; open_now |].
    intros l2 w2 H. exact I. }
  split; [exact Hopen |].
  destruct (last_write_wins (cfg false) DeserializeAnonymousType
              [quiet 0; quiet 100] locals0 (serving [json_a; json_b])
              [mkSubmission "a" "abc"; mkSubmission "b" "abc"] "abc" (mkSubmission "b" "abc"))
    as [Hrow Hdrain].
  - repeat constructor.
  - repeat (apply Forall_cons_2; [split; [reflexivity | storable_now] |]).
    apply Forall_nil_2.
  - storable_now.
  - reflexivity.
  - split; [apply NoDup_nil_2 | apply Forall_nil_2].
  - exact Hopen.
  - destruct Hdrain as (l' & w' & Hloop & Hq).
    + by eexists.
    + reflexivity.
    + repeat constructor.
    + exists l', w'. split; [exact Hloop |]. split; [exact Hq |].
      exact (Hrow l' w' Hloop Hq).
Defined.

(** C1 as the specification states it fails for a voter identity that the
    column cannot hold: the one Submission of a voter of 256 characters is
    popped and decoded with the store connection open, the insert is
    refused, the update finds no row, and [UpdateVote] returns; the queue
    is drained and the voter has no row. *)
Lemma long_voter_identity_is_lost :
  let w := serving [json_long] in
  let subs := [mkSubmission "a" x256] in
  Forall2 (fun json s => DeserializeAnonymousType json = Object s) (redis_votes w) subs
  /\ Forall (fun s => voter_id s = x256) subs
  /\ open_at_each_write (cfg false) DeserializeAnonymousType [quiet 0] locals0 w
  /\ exists l' w',
      loop (cfg false) DeserializeAnonymousType [quiet 0] locals0 w = (Return l', w')
      /\ redis_votes w' = []
      /\ rows_of x256 (table w') = [].
Proof.
  split; [repeat constructor |]. split; [repeat constructor |]. split.
  - split; [intros v l1 w1 H; evaluated H; open_now |]. intros l1 w1 H. exact I.
  - eexists _, _. split; [vm_compute; reflexivity |]. split; reflexivity.
Qed.

Lemma decode_failure_exits_witness :
  DeserializeAnonymousType "not json" = Malformed
  /\ exists w',
      Main_from (cfg false) DeserializeAnonymousType locals0 [quiet 0; quiet 100]
        (serving ["not json"; json_a]) = (Exited 1, w')
      /\ redis_votes w' = [json_a]
      /\ table w' = []
      /\ last (console w') = Some (stderr "Newtonsoft.Json.JsonException").
Proof.
  assert (DeserializeAnonymousType "not json" = Malformed) as Hdec by reflexivity.
  split; [exact Hdec |].
  apply (decode_failure_exits (cfg false) DeserializeAnonymousType (quiet 0) [quiet 100]
           locals0 (serving ["not json"; json_a]) "not json" [json_a]).
  - reflexivity.
  - exact Hdec.
  - exact I.
Defined.

(** C3 as the specification states it fails: a record that does not
    decode ends the loop and the process. [Main] returns 1 in the
    iteration that popped it, and the record queued behind it is never
    taken. *)
Lemma decode_failure_ends_loop :
  DeserializeAnonymousType "not json" = Malformed
  /\ Main_from (cfg false) DeserializeAnonymousType locals0 [quiet 0; quiet 100]
       (serving ["not json"; json_a])
     = (Exited 1,
        mkWorld [json_a] (Some []) [mkConn Open true "Server=db"]
          [stderr "Newtonsoft.Json.JsonException"]).
Proof. split; vm_compute; reflexivity. Qed.




Lemma write_or_reconnect_witness :
  from_option State Closed (heap (broken []) !! pgsql locals0) <> Open
  /\ fst (write (quiet 0) locals0 (mkSubmission "a" "abc") (broken []))
     = Return (with_pgsql 1 locals0)
  /\ table (snd (write (quiet 0) locals0 (mkSubmission "a" "abc") (broken []))) = [].
Proof.
  assert (from_option State Closed (heap (broken []) !! pgsql locals0) <> Open) as Hs.
  { simpl. discriminate. }
  split; [exact Hs |].
  destruct (proj2 (proj2 (write_or_reconnect (cfg false) DeserializeAnonymousType
                            (quiet 0) locals0 (mkSubmission "a" "abc") (broken [])))
              Hs) as (Ht & _ & Hacc & _).
  split; [| exact Ht].
  apply Hacc. apply list_elem_of_here.
Defined.

(** C5 as the specification states it fails: the Submission is lost also
    when the reopening succeeds. The connection is broken when the record
    is popped; the one attempt to reopen is accepted and the worker goes
    on with the new connection, open; the record is off the queue and the
    table has no row for it. *)
Lemma submission_lost_after_reopen :
  Open_attempts (quiet 0) = [Accepted]
  /\ DeserializeAnonymousType json_a = Object (mkSubmission "a" "abc")
  /\ Main_from (cfg false) DeserializeAnonymousType locals0 [quiet 0] (broken [json_a])
     = (Running (with_pgsql 1 locals0),
        mkWorld [] (Some [])
          [mkConn Broken false "Server=db"; mkConn Open true "Server=db"]
          [stdout "Processing vote for 'a' by 'abc'";
           stdout "Reconnecting DB";
           stderr "Connected to db"]).
Proof. split; [| split]; vm_compute; reflexivity. Qed.

(** After such a reconnection the keep-alive command is still the one
    created on the broken connection: the next iteration that finds
    nothing queued throws, and [Main] returns 1. *)
Example keep_alive_on_the_old_connection :
  fst (Main_from (cfg false) DeserializeAnonymousType locals0 [quiet 0; quiet 100]
         (broken [json_a]))
  = Exited 1.
Proof. vm_compute. reflexivity. Qed.

Lemma hello_enqueues_any_choice_witness :
  Vote.method post_zebra = Vote.POST
  /\ Vote.ERROR_SIM_ENABLED app0 = false
  /\ Vote.redis_up app0 = true
  /\ Vote.redis_votes (snd (Vote.hello json_dumps post_zebra 255 app0))
     = [json_dumps [("voter_id", "f"); ("vote", "zebra")]].
Proof.
  split; [reflexivity |]. split; [reflexivity |]. split; [reflexivity |].
  apply (proj1 (hello_enqueues_any_choice json_dumps post_zebra 255 app0
                  eq_refl eq_refl eq_refl) "zebra").
  reflexivity.
Defined.

(** C6 as the specification states it fails: [zebra] is not one of the
    enumerated choices, and the post that carries it is answered with the
    rendered view and has its entry pushed onto the queue. *)
Lemma hello_pushes_unlisted_choice :
  ~ Vote.enumerated "zebra"
  /\ Vote.hello json_dumps post_zebra 255 app0
     = (inr (Vote.mkResponse (Some "zebra") "f"),
        Vote.mkApp false true
          [json_dumps [("voter_id", "f"); ("vote", "zebra")]]
          ["Received vote for zebra"]).
Proof.
  split.
  - intros [H | H]; discriminate H.
  - vm_compute. reflexivity.
Qed.

Lemma keep_alive_failure_exits_witness :
  ~ store_open (keepAliveCommand locals0)
      (snd (happen ConnectionBroken (serving [])))
  /\ exists w' ex,
      Main_from (cfg false) DeserializeAnonymousType locals0
        [mkTick ConnectionBroken IsConnected 100 100 "token" []; quiet 200]
        (serving []) = (Exited 1, w')
      /\ last (console w') = Some (stderr (ToString ex)).
Proof.
  assert (~ store_open (keepAliveCommand locals0)
            (snd (happen ConnectionBroken (serving [])))) as Hno.
  { intros (conn & Hc & Hs & _). vm_compute in Hc. injection Hc as <-. discriminate Hs. }
  split; [exact Hno |].
  apply (proj1 (keep_alive_failure_exits (cfg false) DeserializeAnonymousType)
           (mkTick ConnectionBroken IsConnected 100 100 "token" []) [quiet 200]
           locals0 (serving [])).
  - reflexivity.
  - exact I.
  - exact Hno.
Defined.

(** * Further properties of the worker *)

(** ** The worker and the queue *)

Lemma takes_at_most_keeps {A} (m : M A) : keeps redis_votes m -> takes_at_most 0 m.
Proof. intros Hk w. exists 0. split; [done |]. by rewrite Hk, drop_0. Qed.

Lemma takes_at_most_weaken {A} n n' (m : M A) :
  takes_at_most n m -> n <= n' -> takes_at_most n' m.
Proof. intros Hm Hle w. destruct (Hm w) as (i & Hi & Hq). exists i. split; [lia | done]. Qed.

Lemma takes_at_most_bind {A B} n n' (m : M A) (k : A -> M B) :
  takes_at_most n m -> (forall a, takes_at_most n' (k a)) ->
  takes_at_most (n + n') (bind m k).
Proof.
  intros Hm Hk w. unfold bind. destruct (Hm w) as (i & Hi & Hq).
  destruct (m w) as [[a | ex |] w1]; simpl in *;
    [| exists i; split; [lia | done] | exists i; split; [lia | done]].
  destruct (Hk a w1) as (j & Hj & Hq'). exists (i + j). split; [lia |].
  by rewrite Hq', Hq, drop_drop.
Qed.

Lemma takes_at_most_ListLeftPop r : takes_at_most 1 (ListLeftPop r).
Proof.
  intros w. unfold ListLeftPop.
  destruct r; try (exists 0; split; [lia | by rewrite drop_0]);
    (destruct (redis_votes w) as [| json rest] eqn:Hq; simpl;
     [exists 0; split; [lia | by rewrite Hq] | exists 1; split; [lia | done]]).
Qed.

Section Queue.

Variable cfg : Config.
Variable dec : string -> Decoded.

Lemma keeps_decode {X} (f : World -> X) json :
  (forall c w, f (with_console c w) = f w) -> keeps f (decode dec json).
Proof.
  intros Hc. unfold decode. destruct (dec json); [apply keeps_throw | apply keeps_throw |].
  apply keeps_bind; [by apply keeps_WriteLine | intros _; apply keeps_ret].
Qed.

Lemma keeps_redis_votes_write t l v : keeps redis_votes (write t l v).
Proof.
  unfold write. apply keeps_bind; [by apply keeps_get_State | intros s].
  destruct (decide (s = Open)).
  - apply keeps_bind; [apply keeps_redis_votes_UpdateVote | intros _; apply keeps_ret].
  - apply keeps_bind; [by apply keeps_WriteLine | intros _].
    apply keeps_bind; [apply keeps_redis_votes_OpenDbConnection | intros c; apply keeps_ret].
Qed.

Lemma takes_at_most_iteration t l : takes_at_most 1 (iteration cfg dec t l).
Proof.
  unfold iteration.
  apply (takes_at_most_bind 1 0); [| intros r; apply takes_at_most_keeps].
  - unfold poll.
    apply (takes_at_most_bind 0 1); [by apply takes_at_most_keeps, keeps_happen | intros _].
    apply (takes_at_most_bind 0 1);
      [by apply takes_at_most_keeps, keeps_reconnect_redis | intros _].
    apply (takes_at_most_bind 1 0); [apply takes_at_most_ListLeftPop | intros json].
    apply takes_at_most_keeps. destruct json as [json |]; [| apply keeps_ret].
    apply keeps_bind; [by apply keeps_decode | intros v].
    apply keeps_bind; [by apply keeps_refresh | intros l'; apply keeps_ret].
  - destruct r as [[v l'] |]; [apply keeps_redis_votes_write |].
    apply keeps_bind; [by apply keeps_ExecuteNonQuery | intros _; apply keeps_ret].
Qed.

Lemma takes_at_most_loop ticks l : takes_at_most (length ticks) (loop cfg dec ticks l).
Proof.
  revert l. induction ticks as [| t rest IH]; intros l; simpl.
  - apply takes_at_most_keeps, keeps_ret.
  - apply (takes_at_most_bind 1 (length rest)); [apply takes_at_most_iteration | done].
Qed.

Lemma keeps_redis_votes_startup boot : keeps redis_votes (startup cfg boot).
Proof.
  unfold startup. apply keeps_bind.
  { destruct (useIamAuth cfg);
      (apply keeps_bind; [by apply keeps_WriteLine | intros _; apply keeps_ret]). }
  intros cs. apply keeps_bind; [apply keeps_redis_votes_OpenDbConnection | intros c].
  apply keeps_bind; [by apply keeps_OpenRedisConnection | intros _; apply keeps_ret].
Qed.

Lemma top_level_redis_votes body w :
  redis_votes (snd (top_level body w)) = redis_votes (snd (body w)).
Proof. unfold top_level. by destruct (body w) as [[l' | ex |] w1]. Qed.

Lemma top_level_table body w : table (snd (top_level body w)) = table (snd (body w)).
Proof. unfold top_level. by destruct (body w) as [[l' | ex |] w1]. Qed.

Lemma keeps_table_poll t l : keeps table (poll cfg dec t l).
Proof.
  unfold poll. apply keeps_bind; [by apply keeps_happen | intros _].
  apply keeps_bind; [by apply keeps_reconnect_redis | intros _].
  apply keeps_bind.
  { intros w. unfold ListLeftPop. destruct (redis t); try done;
      by destruct (redis_votes w). }
  intros json. destruct json as [json |]; [| apply keeps_ret].
  apply keeps_bind; [by apply keeps_decode | intros v].
  apply keeps_bind; [| intros l'; apply keeps_ret].
  apply keeps_refresh; auto using create_keeps_table.
Qed.

Lemma iteration_nothing_queued t l w :
  redis_votes w = [] ->
  table (snd (iteration cfg dec t l w)) = table w
  /\ redis_votes (snd (iteration cfg dec t l w)) = [].
Proof.
  intros Hq. split.
  - unfold iteration, bind.
    destruct (poll cfg dec t l w) as [[r | ex |] w1] eqn:Hp; simpl;
      try apply (keeps_elim table _ _ _ _ (keeps_table_poll t l) Hp).
    pose proof (poll_Return_inv cfg dec t l w r w1 Hp) as Hinv. rewrite Hq in Hinv.
    destruct Hinv as (-> & _ & Ht & _).
    destruct (ExecuteNonQuery (keepAliveCommand l) SELECT_1 w1) as [[[] | ex |] w2] eqn:Hka;
      simpl; rewrite <- Ht;
      apply (keeps_elim table _ _ _ _
               (keeps_ExecuteNonQuery table (fun _ _ => eq_refl) _ SELECT_1
                  (fun w d H => ltac:(by injection H as <-))) Hka).
  - destruct (takes_at_most_iteration t l w) as (i & _ & Hdrop).
    by rewrite Hdrop, Hq, drop_nil.
Qed.

End Queue.

(** The worker only ever takes records from the head of the queue, at
    most one in each iteration: after any run of [Main], from its start or
    from inside its loop, however it ends, the queue is the queue before
    without its first [n] records, for some [n] no greater than the number
    of iterations. No record is put back, reordered or added. *)
Theorem worker_only_pops cfg dec :
  (forall l ticks w,
      exists n, n <= length ticks
                /\ redis_votes (snd (Main_from cfg dec l ticks w)) = drop n (redis_votes w))
  /\ (forall boot ticks w,
      exists n, n <= length ticks
                /\ redis_votes (snd (Main cfg dec boot ticks w)) = drop n (redis_votes w)).
Proof.
  split.
  - intros l ticks w. unfold Main_from. rewrite top_level_redis_votes.
    apply takes_at_most_loop.
  - intros boot ticks w. unfold Main. rewrite top_level_redis_votes.
    apply (takes_at_most_bind 0 (length ticks)).
    + apply takes_at_most_keeps, keeps_redis_votes_startup.
    + intros l. apply takes_at_most_loop.
Qed.

(** While nothing is queued the worker writes nothing: after any run of
    the loop on an empty queue, however it ends, the table is as it was
    and the queue is still empty. *)
Theorem idle_worker_leaves_table cfg dec l ticks w :
  redis_votes w = [] ->
  table (snd (Main_from cfg dec l ticks w)) = table w
  /\ redis_votes (snd (Main_from cfg dec l ticks w)) = [].
Proof.
  intros Hq. unfold Main_from. rewrite top_level_table, top_level_redis_votes.
  revert l w Hq. induction ticks as [| t rest IH]; intros l w Hq; [done |].
  simpl. unfold bind.
  destruct (iteration_nothing_queued cfg dec t l w Hq) as [Ht Hq1].
  destruct (iteration cfg dec t l w) as [[l1 | ex |] w1]; simpl in *; [| done | done].
  destruct (IH l1 w1 Hq1) as [Ht' Hq']. split; [congruence | done].
Qed.

Lemma idle_worker_leaves_table_witness :
  redis_votes (voted []) = []
  /\ table (snd (Main_from (cfg true) DeserializeAnonymousType locals0
                   [quiet 0; mkTick LinkLost IsConnected 700000 700000 "token" []]
                   (voted [])))
     = [mkRow "abc" "a"].
Proof.
  split; [reflexivity |].
  exact (proj1 (idle_worker_leaves_table (cfg true) DeserializeAnonymousType locals0
                  [quiet 0; mkTick LinkLost IsConnected 700000 700000 "token" []]
                  (voted []) eq_refl)).
Defined.

(** ** [UpdateVote], voter by voter *)

Lemma rows_of_set_vote_other k k' v t :
  k' <> k -> rows_of k' (map (set_vote k v) t) = rows_of k' t.
Proof.
  intros Hne. unfold rows_of. induction t as [| r t IH]; simpl; [done |].
  unfold set_vote at 1. destruct (decide (Pg.id r = k)) as [Heq | Hneq].
  - rewrite !filter_cons_False by (simpl; congruence). exact IH.
  - destruct (decide (Pg.id r = k')).
    + rewrite !filter_cons_True by done. by rewrite IH.
    + rewrite !filter_cons_False by done. exact IH.
Qed.

Lemma upsert_other k v d d1 k' :
  upsert k v d = inr d1 -> fits k -> k' <> k ->
  rows_of k' (default [] d1) = rows_of k' (default [] d).
Proof.
  intros Hup Hk Hne. unfold upsert in Hup. destruct d as [t |]; [| done]. simpl in *.
  destruct (has_nul k), (has_nul v); simpl in Hup; try done.
  rewrite (varchar_of_fits k Hk) in Hup.
  destruct (varchar 255 v) as [v' |]; [| done].
  destruct (has_id k t); injection Hup as <-; simpl.
  - by apply rows_of_set_vote_other.
  - unfold rows_of. rewrite filter_app, filter_cons_False by (simpl; congruence).
    by rewrite filter_nil, app_nil_r.
Qed.

(** A write for one voter leaves the rows of every other voter as they
    were, whatever the state of the connection and however [UpdateVote]
    ends. *)
Theorem UpdateVote_other_voters c k v w k' :
  fits k -> k' <> k ->
  rows_of k' (table (snd (UpdateVote c k v w))) = rows_of k' (table w).
Proof.
  intros Hk Hne. destruct (store_open_dec c w) as [Ho | Hno].
  - rewrite (UpdateVote_open _ _ _ _ Ho).
    destruct (upsert k v (db w)) as [e | d1] eqn:Hup; [done |].
    exact (upsert_other k v (db w) d1 k' Hup Hk Hne).
  - destruct (UpdateVote_not_open c k v w Hno) as (ex & w1 & -> & Hdb & _).
    simpl. unfold table. by rewrite Hdb.
Qed.

Lemma UpdateVote_other_voters_witness :
  fits "xyz" /\ "abc" <> "xyz"
  /\ rows_of "abc" (table (snd (UpdateVote 0 "xyz" "b" (voted [])))) = [mkRow "abc" "a"].
Proof.
  assert (fits "xyz") as Hk by (unfold fits; simpl; lia).
  assert ("abc" <> "xyz") as Hne by discriminate.
  split; [exact Hk |]. split; [exact Hne |].
  exact (UpdateVote_other_voters 0 "xyz" "b" (voted []) "abc" Hk Hne).
Defined.

(** On an open connection, with the table in place, [UpdateVote] for a
    voter identity and a choice that are storable (at most 255
    characters, none of them U+0000) always returns, whether the voter
    has a row or not: the refusal of the insert on the unique key is not
    an error. Afterwards the voter has exactly one row, holding the
    choice, the table is within its declaration, and nothing else of the
    world has changed. *)
Theorem UpdateVote_records_choice c k v w :
  store_open c w -> is_Some (db w) -> schema_ok (table w) ->
  storable k -> storable v ->
  exists d,
    UpdateVote c k v w = (Return tt, with_db d w)
    /\ rows_of k (default [] d) = [mkRow k v]
    /\ schema_ok (default [] d).
Proof.
  intros Ho [t Hdb] Hok Hk Hv. rewrite (UpdateVote_open _ _ _ _ Ho), Hdb.
  destruct (upsert_total k v t Hk Hv) as (t' & Hup). rewrite Hup.
  exists (Some t'). split; [done |].
  apply (upsert_row k v (Some t) (Some t') Hup (proj1 Hk) (proj1 Hv)).
  unfold table in Hok. by rewrite Hdb in Hok.
Qed.

Lemma UpdateVote_records_choice_witness :
  store_open 0 (voted [])
  /\ exists d,
      UpdateVote 0 "abc" "b" (voted []) = (Return tt, with_db d (voted []))
      /\ rows_of "abc" (default [] d) = [mkRow "abc" "b"]
      /\ schema_ok (default [] d).
Proof.
  assert (store_open 0 (voted [])) as Ho by open_now.
  split; [exact Ho |].
  apply (UpdateVote_records_choice 0 "abc" "b" (voted []) Ho).
  - by eexists.
  - split; [apply NoDup_singleton | apply Forall_singleton; unfold fits; simpl; lia].
  - storable_now.
  - storable_now.
Defined.



(** A voter identity or a choice that holds the character U+0000,
    whatever its length and whether the voter has a row or not: the
    server refuses the parameters of both statements of [UpdateVote], the
    exception of the update leaves [UpdateVote] and the loop, the record
    is off the queue, the table is as it was, and [Main] returns 1. *)
Theorem nul_value_exits cfg dec t ticks l w v l1 w1 :
  poll cfg dec t l w = (Return (Some (v, l1)), w1) ->
  store_open (pgsql l1) w1 ->
  is_Some (db w1) ->
  has_nul (voter_id v) || has_nul (Worker.vote v) = true ->
  Main_from cfg dec l (t :: ticks) w
  = (Exited 1,
     with_console
       (console w1 ++ [stderr (ToString (PostgresException character_not_in_repertoire))])
       w1).
Proof.
  intros Hp Ho [t1 Hdb] Hn. unfold Main_from, top_level. simpl. unfold iteration.
  unfold bind at 1 2. rewrite Hp. rewrite (write_open _ _ _ _ Ho).
  unfold bind. rewrite (UpdateVote_open _ _ _ _ Ho), Hdb.
  by rewrite (upsert_nul _ _ _ Hn).
Qed.

Lemma nul_value_exits_witness :
  has_nul "xyz" || has_nul a_nul_b = true
  /\ Main_from (cfg false) nul_choice locals0 [quiet 0; quiet 100] (voted [json_nul_choice])
     = (Exited 1,
        mkWorld [] (Some [mkRow "abc" "a"]) [mkConn Open true "Server=db"]
          [stdout ("Processing vote for '" +:+ a_nul_b +:+ "' by 'xyz'");
           stderr "Npgsql.PostgresException"]).
Proof.
  assert (has_nul "xyz" || has_nul a_nul_b = true) as Hn by reflexivity.
  split; [exact Hn |].
  rewrite (nul_value_exits (cfg false) nul_choice (quiet 0) [quiet 100] locals0
             (voted [json_nul_choice]) (mkSubmission a_nul_b "xyz") locals0
             (mkWorld [] (Some [mkRow "abc" "a"]) [mkConn Open true "Server=db"]
                [stdout ("Processing vote for '" +:+ a_nul_b +:+ "' by 'xyz'")])).
  - reflexivity.
  - vm_compute. reflexivity.
  - open_now.
  - by eexists.
  - exact Hn.
Defined.

(** ** Last write wins, for each voter *)

Section DrainEach.

Variable cfg : Config.
Variable dec : string -> Decoded.

Lemma drain_each k ticks :
  forall l w l' w' subs,
    Forall2 (fun json s => dec json = Object s) (redis_votes w) subs ->
    Forall (fun s => fits (voter_id s) /\ fits (Worker.vote s)) subs ->
    schema_ok (table w) ->
    open_at_each_write cfg dec ticks l w ->
    loop cfg dec ticks l w = (Return l', w') -> redis_votes w' = [] ->
    schema_ok (table w')
    /\ match last_of k subs with
       | Some s => rows_of k (table w') = [mkRow k (Worker.vote s)]
       | None => rows_of k (table w') = rows_of k (table w)
       end.
Proof.
  induction ticks as [| t rest IH]; intros l w l' w' subs Hdec Hsubs Hok Hopen Hloop Hq.
  - injection Hloop as <- <-. rewrite Hq in Hdec.
    apply Forall2_nil_inv_l in Hdec as ->. done.
  - simpl in Hloop. apply bind_Return_inv in Hloop as (l1 & w1 & Hit & Hloop).
    destruct Hopen as [Hnow Hlater]. specialize (Hlater l1 w1 Hit).
    destruct (redis_votes w) as [| json q] eqn:Hqw.
    + apply Forall2_nil_inv_l in Hdec as ->.
      destruct (iteration_idle cfg dec t l w l1 w1 Hqw Hit) as (_ & Hq1 & Ht1 & _).
      destruct (IH l1 w1 l' w' []) as [Hok' Hsame]; try done.
      * rewrite Hq1. constructor.
      * by rewrite Ht1.
      * split; [done |]. unfold last_of in *. simpl in *. by rewrite Hsame, Ht1.
    + apply Forall2_cons_inv_l in Hdec as (s & ss & Hs & Hss & ->).
      destruct (iteration_writes cfg dec t l w json q l1 w1 Hqw Hnow Hit)
        as (v & d0 & d & Hv & Hq1 & Hd0 & Hup & Hd).
      assert (v = s) as -> by congruence.
      apply Forall_cons in Hsubs as [[Hvoter Hvote] Hsubs].
      rewrite <- Hd0 in Hok.
      destruct (upsert_row (voter_id s) (Worker.vote s) d0 d Hup Hvoter Hvote Hok)
        as [Hrow Hok1].
      assert (table w1 = default [] d) as Ht1 by (unfold table; by rewrite Hd).
      destruct (IH l1 w1 l' w' ss) as [Hok' Hlast]; try done.
      * by rewrite Hq1.
      * by rewrite Ht1.
      * split; [done |]. unfold last_of in *.
        destruct (decide (voter_id s = k)) as [Heq | Hne].
        -- rewrite filter_cons_True by done. rewrite last_cons.
           destruct (last (filter (fun s0 => voter_id s0 = k) ss)) as [s' |]; [done |].
           rewrite Hlast, Ht1. by rewrite <- Heq.
        -- rewrite filter_cons_False by done.
           destruct (last (filter (fun s0 => voter_id s0 = k) ss)) as [s' |]; [done |].
           rewrite Hlast, Ht1, <- Hd0.
           apply (upsert_other _ _ _ _ _ Hup Hvoter). congruence.
Qed.

End DrainEach.

(** A queue of Submissions of any number of voters, all with a storable
    voter identity and choice (at most 255 characters, none of them
    U+0000), drained by one worker with the store connection open at each
    write: once the queue is empty, every voter who submitted has exactly
    one row, holding the choice of their own last Submission, and the
    rows of the voters who did not submit are as they were. And the queue
    does get empty: with the table in place, Redis serving and the store
    accepting connections, as many iterations as there are Submissions
    drain it. *)
Theorem last_write_wins_each_voter cfg dec ticks l w subs k :
  Forall2 (fun json s => dec json = Object s) (redis_votes w) subs ->
  Forall (fun s => storable (voter_id s) /\ storable (Worker.vote s)) subs ->
  schema_ok (table w) ->
  open_at_each_write cfg dec ticks l w ->
  (forall l' w',
      loop cfg dec ticks l w = (Return l', w') ->
      redis_votes w' = [] ->
      match last_of k subs with
      | Some s => rows_of k (table w') = [mkRow k (Worker.vote s)]
      | None => rows_of k (table w') = rows_of k (table w)
      end)
  /\ (is_Some (db w) ->
      length ticks = length subs ->
      Forall (fun t => redis_serves t /\ Accepted ∈ Open_attempts t) ticks ->
      exists l' w', loop cfg dec ticks l w = (Return l', w') /\ redis_votes w' = []).
Proof.
  intros Hdec Hsubs Hok Hopen. split.
  - intros l' w' Hloop Hq.
    destruct (drain_each cfg dec k ticks l w l' w' subs) as [_ Hrow]; try done.
    eapply Forall_impl; [exact Hsubs |]. by intros s [[Hk _] [Hv _]].
  - intros Hdb Hlen Henv. by apply (loop_total cfg dec ticks l w subs).
Qed.

Lemma last_write_wins_each_voter_witness :
  open_at_each_write (cfg false) two_voters [quiet 0; quiet 100; quiet 200] locals0
    (serving [json_a; json_c; json_b])
  /\ exists l' w',
      loop (cfg false) two_voters [quiet 0; quiet 100; quiet 200] locals0
        (serving [json_a; json_c; json_b]) = (Return l', w')
      /\ redis_votes w' = []
      /\ rows_of "abc" (table w') = [mkRow "abc" "b"].
Proof.
  assert (open_at_each_write (cfg false) two_voters [quiet 0; quiet 100; quiet 200] locals0
            (serving [json_a; json_c; json_b])) as Hopen.
  { split; [intros v l1 w1 H; evaluated H; open_now |].
    intros l1 w1 H. evaluated H.
    split; [intros v l2 w2 H; evaluated H; open_now |].
    intros l2 w2 H. evaluated H.
    split; [intros v l3 w3 H; evaluated H; open_now |].
    intros l3 w3 H. exact I. }
  split; [exact Hopen |].
  destruct (last_write_wins_each_voter (cfg false) two_voters
              [quiet 0; quiet 100; quiet 200] locals0 (serving [json_a; json_c; json_b])
              [mkSubmission "a" "abc"; mkSubmission "b" "xyz"; mkSubmission "b" "abc"] "abc")
    as [Hrow Hdrain].
  - repeat constructor.
  - repeat (apply Forall_cons_2; [split; storable_now |]). apply Forall_nil_2.
  - split; [apply NoDup_nil_2 | apply Forall_nil_2].
  - exact Hopen.
  - destruct Hdrain as (l' & w' & Hloop & Hq).
    + by eexists.
    + reflexivity.
    + repeat constructor.
    + exists l', w'. split; [exact Hloop |]. split; [exact Hq |].
      exact (Hrow l' w' Hloop Hq).
Defined.

(** ** Records and readings that end the loop, or hold it *)

Section Edges.

Variable cfg : Config.
Variable dec : string -> Decoded.

Lemma keep_alive_throws t l w :
  redis_votes w = [] ->
  redis_serves t ->
  ~ store_open (keepAliveCommand l) (snd (happen (during_sleep t) w)) ->
  exists ex w',
    iteration cfg dec t l w = (Throw ex, w') /\ table w' = table w /\ redis_votes w' = [].
Proof.
  intros Hq Hs Hno.
  destruct (iteration_nothing_queued cfg dec t l w Hq) as [Ht Hq'].
  assert (exists ex w', iteration cfg dec t l w = (Throw ex, w')) as (ex & w' & Hit).
  { unfold iteration.
    destruct (poll_serves cfg dec t l w Hs) as (lines & Hp). simpl in Hp.
    rewrite Hq in Hp.
    match type of Hp with _ = (_, ?w0) => set (wa := w0) in * end.
    rewrite (bind_Return _ _ _ _ _ Hp). unfold bind, ExecuteNonQuery. subst wa. simpl.
    destruct (heap (happen (during_sleep t) w).2 !! keepAliveCommand l)
      as [conn |] eqn:Hc; [| eauto].
    destruct (decide (State conn = Open)) as [Hst | Hst]; [| eauto].
    destruct (link_up conn) eqn:Hl; [| eauto].
    exfalso. apply Hno. exists conn. done. }
  rewrite Hit in Ht, Hq'. eauto.
Qed.

End Edges.

(** A record that decodes to the null reference (the JSON text [null]):
    the first use of the decoded object throws, the record is dropped, the
    table is untouched and [Main] returns 1 with the exception on the
    error stream. *)
Theorem null_record_exits cfg dec t ticks l w json rest :
  redis_votes w = json :: rest ->
  dec json = Null ->
  redis_serves t ->
  exists w',
    Main_from cfg dec l (t :: ticks) w = (Exited 1, w')
    /\ redis_votes w' = rest
    /\ table w' = table w
    /\ last (console w') = Some (stderr (ToString NullReferenceException)).
Proof.
  intros Hq Hdec Hs. unfold Main_from, top_level. simpl. unfold iteration.
  destruct (poll_serves cfg dec t l w Hs) as (lines & Hp). simpl in Hp.
  rewrite Hq in Hp.
  match type of Hp with _ = _ ?w0 => set (wa := w0) in * end.
  assert (poll cfg dec t l w = (Throw NullReferenceException, wa)) as Hthrow.
  { rewrite Hp. apply bind_Throw. unfold decode. by rewrite Hdec. }
  unfold bind at 1 2. rewrite Hthrow. eexists. split; [done |].
  split; [done |]. split.
  - unfold table. simpl. by rewrite happen_db.
  - simpl. by rewrite last_snoc.
Qed.

Lemma null_record_exits_witness :
  DeserializeAnonymousType "null" = Null
  /\ exists w',
      Main_from (cfg false) DeserializeAnonymousType locals0 [quiet 0; quiet 100]
        (voted ["null"; json_b]) = (Exited 1, w')
      /\ redis_votes w' = [json_b]
      /\ table w' = [mkRow "abc" "a"]
      /\ last (console w') = Some (stderr "System.NullReferenceException").
Proof.
  assert (DeserializeAnonymousType "null" = Null) as Hdec by reflexivity.
  split; [exact Hdec |].
  exact (null_record_exits (cfg false) DeserializeAnonymousType (quiet 0) [quiet 100]
           locals0 (voted ["null"; json_b]) "null" [json_b] eq_refl Hdec I).
Defined.

(** When the pop from Redis faults, nothing has been taken from the queue
    or written to the table, and the exception ends the loop: [Main]
    returns 1. *)
Theorem redis_fault_exits cfg dec t ticks l w :
  redis t = Faulted ->
  exists w',
    Main_from cfg dec l (t :: ticks) w = (Exited 1, w')
    /\ redis_votes w' = redis_votes w
    /\ table w' = table w
    /\ last (console w') = Some (stderr (ToString AggregateException)).
Proof.
  intros Hr. unfold Main_from, top_level. simpl. unfold iteration, poll.
  assert (exists w0, happen (during_sleep t) w = (Return tt, w0)
                     /\ redis_votes w0 = redis_votes w /\ db w0 = db w)
    as (w0 & Hev & Hq0 & Hd0).
  { unfold happen. destruct (during_sleep t); eauto. }
  assert ((happen (during_sleep t) ;;
           reconnect_redis cfg t ;;
           json <- ListLeftPop (redis t) ;;
           match json with
           | Some json =>
               v <- decode dec json ;; l' <- refresh cfg t l ;; ret (Some (v, l'))
           | None => ret None
           end) w = (Throw AggregateException, w0)) as Hp.
  { rewrite (bind_Return _ _ _ _ _ Hev).
    rewrite (bind_Return _ _ w0 tt w0) by (unfold reconnect_redis; by rewrite Hr).
    apply bind_Throw. unfold ListLeftPop. by rewrite Hr. }
  unfold bind at 1 2. rewrite Hp. eexists. split; [done |].
  split; [done |]. split.
  - unfold table. simpl. by rewrite Hd0.
  - simpl. by rewrite last_snoc.
Qed.

Lemma redis_fault_exits_witness :
  exists w',
    Main_from (cfg false) DeserializeAnonymousType locals0
      [mkTick Quiet Faulted 0 0 "token" []; quiet 100] (voted [json_b]) = (Exited 1, w')
    /\ redis_votes w' = [json_b]
    /\ table w' = [mkRow "abc" "a"]
    /\ last (console w') = Some (stderr "System.AggregateException").
Proof.
  exact (redis_fault_exits (cfg false) DeserializeAnonymousType
           (mkTick Quiet Faulted 0 0 "token" []) [quiet 100] locals0 (voted [json_b])
           eq_refl).
Defined.

Lemma Connect_outcome attempts w :
  ((true ∈ attempts) /\ fst (Connect attempts w) = Return tt)
  \/ ((true ∉ attempts) /\ fst (Connect attempts w) = Blocked).
Proof.
  revert w. induction attempts as [| [|] rest IH]; intros w.
  - right. split; [apply not_elem_of_nil | done].
  - left. split; [apply list_elem_of_here | done].
  - simpl. unfold bind, Error_WriteLine.
    match goal with |- context [Connect rest ?w0] => destruct (IH w0) as [[Hin Hc] | [Hn Hc]] end.
    + left. split; [by apply list_elem_of_further |]. exact Hc.
    + right. split; [| exact Hc].
      intros Hin. apply elem_of_cons in Hin as [Hin | Hin]; done.
Qed.

(** The Redis check never ends the loop: whatever the attempts to connect
    give, it does not throw. While no attempt succeeds the worker waits in
    it, with nothing taken from the queue and nothing written to the
    table. *)
Theorem redis_reconnect_never_fatal cfg dec t ticks l w :
  (forall ex, fst (reconnect_redis cfg t w) <> Throw ex)
  /\ (forall attempts,
      redis t = Disconnected attempts -> true ∉ attempts ->
      fst (Main_from cfg dec l (t :: ticks) w) = Waiting
      /\ redis_votes (snd (Main_from cfg dec l (t :: ticks) w)) = redis_votes w
      /\ table (snd (Main_from cfg dec l (t :: ticks) w)) = table w).
Proof.
  split.
  - intros ex. unfold reconnect_redis. destruct (redis t) as [| attempts |]; [done | | done].
    unfold OpenRedisConnection, bind, WriteLine.
    match goal with |- context [Connect attempts ?w0] =>
      destruct (Connect_outcome attempts w0) as [[_ Hc] | [_ Hc]];
      destruct (Connect attempts w0) as [[[] | ex' |] w1] end; simpl in *; done.
  - intros attempts Hr Hn.
    assert (exists w1, poll cfg dec t l w = (Blocked, w1)
                         /\ redis_votes w1 = redis_votes w /\ table w1 = table w)
      as (w1 & Hp & Hq & Ht).
    { unfold poll.
      assert (exists w0, happen (during_sleep t) w = (Return tt, w0)
                         /\ redis_votes w0 = redis_votes w /\ db w0 = db w)
        as (w0 & Hev & Hq0 & Hd0).
      { unfold happen. destruct (during_sleep t); eauto. }
      rewrite (bind_Return _ _ _ _ _ Hev).
      destruct (reconnect_redis cfg t w0) as [[[] | ex |] w1] eqn:Hre.
      - exfalso. unfold reconnect_redis in Hre. rewrite Hr in Hre.
        unfold OpenRedisConnection, bind, WriteLine in Hre.
        match type of Hre with context [Connect attempts ?wx] =>
          destruct (Connect_outcome attempts wx) as [[Hin _] | [_ Hc]];
          [done | destruct (Connect attempts wx) as [[[] | ex' |] w2]] end;
          simpl in *; done.
      - exfalso. unfold reconnect_redis in Hre. rewrite Hr in Hre.
        unfold OpenRedisConnection, bind, WriteLine in Hre.
        match type of Hre with context [Connect attempts ?wx] =>
          destruct (Connect_outcome attempts wx) as [[Hin _] | [_ Hc]];
          [done | destruct (Connect attempts wx) as [[[] | ex' |] w2]] end;
          simpl in *; done.
      - exists w1. split; [by apply bind_Blocked |].
        rewrite (keeps_elim redis_votes _ _ _ _
                   (keeps_reconnect_redis cfg redis_votes t (fun _ _ => eq_refl)) Hre).
        rewrite (keeps_elim table _ _ _ _
                   (keeps_reconnect_redis cfg table t (fun _ _ => eq_refl)) Hre).
        unfold table. by rewrite Hq0, Hd0. }
    assert (Main_from cfg dec l (t :: ticks) w = (Waiting, w1)) as ->.
    { unfold Main_from, top_level. simpl. unfold iteration.
      unfold bind at 1 2. by rewrite Hp. }
    done.
Qed.

Lemma redis_reconnect_never_fatal_witness :
  (true ∉ [false; false])
  /\ fst (Main_from (cfg false) DeserializeAnonymousType locals0
            [mkTick Quiet (Disconnected [false; false]) 0 0 "token" []; quiet 100]
            (voted [json_b])) = Waiting.
Proof.
  assert (true ∉ [false; false]) as Hn.
  { intros Hin. apply elem_of_cons in Hin as [Hin | Hin]; [done |].
    apply elem_of_cons in Hin as [Hin | Hin]; [done |]. by apply elem_of_nil in Hin. }
  split; [exact Hn |].
  exact (proj1 (proj2 (redis_reconnect_never_fatal (cfg false) DeserializeAnonymousType
                         (mkTick Quiet (Disconnected [false; false]) 0 0 "token" [])
                         [quiet 100] locals0 (voted [json_b]))
                  [false; false] eq_refl Hn)).
Defined.

(** ** Opening the store connection *)




(** ** The keep-alive command after a reconnection *)

Lemma lookup_map_heap (f : NpgsqlConnection -> NpgsqlConnection)
    (h : list NpgsqlConnection) (i : nat) :
  map f h !! i = f <$> h !! i.
Proof.
  revert i. induction h as [| c h IH]; intros [| i]; simpl; try done.
Qed.

Lemma happen_keeps_not_open e w c :
  from_option State Closed (heap w !! c) <> Open ->
  from_option State Closed (heap (snd (happen e w)) !! c) <> Open.
Proof.
  intros Hs. destruct e; simpl; [done | |]; rewrite lookup_map_heap;
    destruct (heap w !! c) as [conn |]; simpl in *; try done;
    try (destruct (decide (State conn = Open)); done).
Qed.

(** The reconnection of lines 104 to 108 replaces the connection and
    leaves the keep-alive command on the old one. So when the worker has
    found its connection not open while handling the last queued record,
    and has reconnected, the next iteration finds nothing queued, sends
    the keep-alive over the old connection, and the exception ends the
    loop: [Main] returns 1, the record that triggered the reconnection
    unwritten. *)
Theorem keep_alive_stale_after_reconnect cfg dec t1 t2 ticks l w json v :
  keepAliveCommand l = pgsql l ->
  is_Some (heap w !! pgsql l) ->
  redis_votes w = [json] ->
  dec json = Object v ->
  redis_serves t1 -> redis_serves t2 ->
  refresh_due cfg t1 l = false ->
  from_option State Closed (heap (snd (happen (during_sleep t1) w)) !! pgsql l) <> Open ->
  Accepted ∈ Open_attempts t1 ->
  exists w',
    Main_from cfg dec l (t1 :: t2 :: ticks) w = (Exited 1, w')
    /\ table w' = table w
    /\ redis_votes w' = [].
Proof.
  intros Hka [conn0 Hconn0] Hq Hdec Hs1 Hs2 Hdue Hst Hacc.
  destruct (poll_serves cfg dec t1 l w Hs1) as (lines & Hp). simpl in Hp.
  rewrite Hq in Hp. unfold decode in Hp. rewrite Hdec in Hp.
  unfold refresh in Hp. rewrite Hdue in Hp.
  unfold bind, WriteLine, ret in Hp.
  match type of Hp with _ = (_, ?w0) => set (wb := w0) in * end.
  assert (heap wb = heap (snd (happen (during_sleep t1) w))) as Hhb by done.
  assert (table wb = table w) as Htb.
  { unfold table. subst wb. simpl. by rewrite happen_db. }
  assert (from_option State Closed (heap wb !! pgsql l) <> Open) as Hst' by by rewrite Hhb.
  assert (exists w1,
             iteration cfg dec t1 l w = (Return (with_pgsql (length (heap wb)) l), w1)
             /\ heap w1 = heap wb ++ [mkConn Open true (dbConnectionString l)]
             /\ table w1 = table w /\ redis_votes w1 = []) as (w1 & Hit & Hh1 & Ht1 & Hq1).
  { unfold iteration. rewrite (bind_Return _ _ _ _ _ Hp).
    rewrite (write_not_open _ _ _ _ Hst'). unfold bind at 1. unfold WriteLine.
    match goal with |- context [bind (OpenDbConnection ?cs ?a) ?k ?w0] =>
      destruct (OpenDbConnection_accepted cs a w0 Hacc) as (w1 & Ho & Hh & Ht & Hq1 & _);
      rewrite (bind_Return (OpenDbConnection cs a) k w0 _ _ Ho) end.
    exists w1. simpl in *. split; [done |]. split; [done |].
    split; [etrans; [exact Ht | exact Htb] | by rewrite Hq1]. }
  assert (~ store_open (keepAliveCommand (with_pgsql (length (heap wb)) l))
            (snd (happen (during_sleep t2) w1))) as Hno.
  { intros (conn & Hc & Hopen & _). simpl in Hc. rewrite Hka in Hc.
    assert (from_option State Closed (heap w1 !! pgsql l) <> Open) as Hold.
    { rewrite Hh1. rewrite lookup_app_l; [done |].
      rewrite Hhb, happen_length. by apply lookup_lt_Some in Hconn0. }
    apply (happen_keeps_not_open (during_sleep t2)) in Hold.
    rewrite Hc in Hold. simpl in Hold. done. }
  destruct (keep_alive_throws cfg dec t2 _ w1 Hq1 Hs2 Hno) as (ex & w' & Hit2 & Ht2 & Hq2).
  eexists. unfold Main_from, top_level. simpl.
  rewrite (bind_Return _ _ _ _ _ Hit), (bind_Throw _ _ _ _ _ Hit2).
  split; [done |]. split; [simpl; unfold table in *; simpl; congruence | done].
Qed.

Lemma keep_alive_stale_after_reconnect_witness :
  from_option State Closed
    (heap (snd (happen (during_sleep (quiet 0)) (broken [json_a]))) !! pgsql locals0) <> Open
  /\ exists w',
      Main_from (cfg false) DeserializeAnonymousType locals0 [quiet 0; quiet 100; quiet 200]
        (broken [json_a]) = (Exited 1, w')
      /\ table w' = []
      /\ redis_votes w' = [].
Proof.
  assert (from_option State Closed
            (heap (snd (happen (during_sleep (quiet 0)) (broken [json_a]))) !! pgsql locals0)
          <> Open) as Hst by (simpl; discriminate).
  split; [exact Hst |].
  apply (keep_alive_stale_after_reconnect (cfg false) DeserializeAnonymousType
           (quiet 0) (quiet 100) [quiet 200] locals0 (broken [json_a]) json_a
           (mkSubmission "a" "abc")).
  - reflexivity.
  - by eexists.
  - reflexivity.
  - reflexivity.
  - exact I.
  - exact I.
  - reflexivity.
  - exact Hst.
  - apply list_elem_of_here.
Defined.

(** * Further properties of the aggregator *)

(** The broadcasts of a run are the snapshots of the queries that
    succeeded, one for each, in their order: a failed query contributes
    nothing, and no snapshot is sent twice. *)
Theorem emits_follow_successes answers :
  List.filter is_emit (getVotes answers)
  = map (fun rows => sockets_emit "scores" (collectVotesFromResult rows)) (successes answers).
Proof.
  unfold successes. induction answers as [| q rest IH]; simpl; [done |].
  destruct q as [e | rows]; simpl; by rewrite IH.
Qed.

(** The snapshot that [collectVotesFromResult] makes of any rows,
    whatever the query returned: each key holds what [parseInt] makes of
    the count of the last row with that key; [a] and [b] are there in any
    case, at 0 when no row has them; no other key is there; and
    [__proto__] is never a key, whatever the rows. *)
Theorem snapshot_of_any_rows rows c :
  collectVotesFromResult rows !! c
  = if decide (c = "__proto__") then None
    else match last (filter (fun r => row_vote r = c) rows) with
         | Some r => Some (parseInt (row_count r))
         | None => if decide (c = "a" \/ c = "b") then Some (Num 0) else None
         end.
Proof.
  unfold collectVotesFromResult.
  induction rows as [| r rows IH] using rev_ind.
  - simpl. destruct (decide (c = "__proto__")) as [-> | Hp]; [done |].
    destruct (decide (c = "a" \/ c = "b")) as [[-> | ->] | Hn]; [done | done |].
    rewrite lookup_insert_ne by (intros <-; apply Hn; by left).
    rewrite lookup_singleton_ne by (intros <-; apply Hn; by right). done.
  - rewrite foldl_app. simpl. rewrite filter_app. unfold assign at 1.
    destruct (decide (row_vote r = "__proto__")) as [Hr | Hr].
    + rewrite IH. destruct (decide (c = "__proto__")) as [Hc | Hc]; [done |].
      rewrite filter_cons_False by congruence. by rewrite filter_nil, app_nil_r.
    + destruct (decide (row_vote r = c)) as [Heq | Hne].
      * subst c. rewrite lookup_insert_eq.
        destruct (decide (row_vote r = "__proto__")); [done |].
        rewrite filter_cons_True by done. by rewrite filter_nil, last_snoc.
      * rewrite lookup_insert_ne by done. rewrite IH.
        rewrite filter_cons_False by done. by rewrite filter_nil, app_nil_r.
Qed.

(** * Further properties of the intake *)

(** [hello] never changes the error-simulation flag. A request that ends
    in an error has pushed nothing. A request that is answered has its
    identity set as the cookie; a [GET] has pushed nothing and shows no
    vote, and a [POST] has pushed exactly one entry, at the tail of the
    queue, for the identity and the choice posted, which the view shows. *)
Theorem hello_pushes_only_on_success json_dumps req getrandbits app :
  let r := Vote.hello json_dumps req getrandbits app in
  Vote.ERROR_SIM_ENABLED (snd r) = Vote.ERROR_SIM_ENABLED app
  /\ (forall e, fst r = inl e -> Vote.redis_votes (snd r) = Vote.redis_votes app)
  /\ (forall resp,
      fst r = inr resp ->
      Vote.set_cookie_voter_id resp = Vote.identity req getrandbits
      /\ match Vote.method req with
         | Vote.GET =>
             Vote.redis_votes (snd r) = Vote.redis_votes app
             /\ Vote.rendered_vote resp = None
         | Vote.POST =>
             exists choice,
               Vote.form req !! "vote" = Some choice
               /\ Vote.rendered_vote resp = Some choice
               /\ Vote.redis_votes (snd r)
                  = Vote.redis_votes app
                    ++ [json_dumps [("voter_id", Vote.identity req getrandbits);
                                    ("vote", choice)]]
         end).
Proof.
  unfold Vote.hello. destruct (Vote.method req).
  - simpl. split; [done |]. split; [done |]. by intros resp [= <-].
  - destruct (Vote.ERROR_SIM_ENABLED app) eqn:Hsim.
    + simpl. split; [done |]. split; [done |]. intros resp H. done.
    + destruct (Vote.form req !! "vote") as [choice |] eqn:Hform.
      * destruct (Vote.redis_up app); simpl.
        -- split; [done |]. split; [done |]. intros resp [= <-]. simpl. eauto.
        -- split; [done |]. split; [done |]. intros resp H. done.
      * simpl. split; [done |]. split; [done |]. intros resp H. done.
Qed.

Lemma hello_pushes_only_on_success_witness :
  fst (Vote.hello json_dumps post_a 255 app0) = inr (Vote.mkResponse (Some "a") "abc")
  /\ Vote.redis_votes (snd (Vote.hello json_dumps post_a 255 app0))
     = [json_dumps [("voter_id", "abc"); ("vote", "a")]].
Proof.
  assert (fst (Vote.hello json_dumps post_a 255 app0)
          = inr (Vote.mkResponse (Some "a") "abc")) as Hr by reflexivity.
  split; [exact Hr |].
  destruct (proj2 (proj2 (proj2 (hello_pushes_only_on_success json_dumps post_a 255%N app0))
                     _ Hr))
    as (choice & Hform & _ & Hq).
  vm_compute in Hform. injection Hform as <-. exact Hq.
Defined.

Lemma hello_sets_identity json_dumps req n app resp :
  fst (Vote.hello json_dumps req n app) = inr resp ->
  Vote.set_cookie_voter_id resp = Vote.identity req n.
Proof.
  unfold Vote.hello. destruct (Vote.method req); [by intros [= <-] |].
  destruct (Vote.ERROR_SIM_ENABLED app); [done |].
  destruct (Vote.form req !! "vote"); [| done].
  destruct (Vote.redis_up app); [by intros [= <-] | done].
Qed.

(** A client that sends back the cookie it was given keeps its identity,
    whatever the random value of the later request, as long as that
    identity is not the empty string. *)
Theorem identity_is_kept json_dumps req1 n1 app resp1 req2 n2 :
  fst (Vote.hello json_dumps req1 n1 app) = inr resp1 ->
  Vote.set_cookie_voter_id resp1 <> "" ->
  Vote.cookies req2 !! "voter_id" = Some (Vote.set_cookie_voter_id resp1) ->
  Vote.identity req2 n2 = Vote.identity req1 n1.
Proof.
  intros Hr Hne Hc. pose proof (hello_sets_identity json_dumps req1 n1 app resp1 Hr) as Hid.
  unfold Vote.identity at 1. rewrite Hc.
  destruct (decide (Vote.set_cookie_voter_id resp1 = "")); [done |]. exact Hid.
Qed.

Lemma identity_is_kept_witness :
  fst (Vote.hello json_dumps post_zebra 255 app0) = inr (Vote.mkResponse (Some "zebra") "f")
  /\ Vote.identity (Vote.mkRequest Vote.POST {[ "voter_id" := "f" ]} {[ "vote" := "a" ]}) 4096
     = "f".
Proof.
  assert (fst (Vote.hello json_dumps post_zebra 255 app0)
          = inr (Vote.mkResponse (Some "zebra") "f")) as Hr by reflexivity.
  split; [exact Hr |].
  apply (identity_is_kept json_dumps post_zebra 255%N app0 (Vote.mkResponse (Some "zebra") "f")
           (Vote.mkRequest Vote.POST {[ "voter_id" := "f" ]} {[ "vote" := "a" ]}) 4096%N Hr).
  - discriminate.
  - reflexivity.
Defined.

(** The identity minted from a random value below 16 is the empty string:
    [hex(n)] has then one digit, and the slice drops it. The cookie set is
    empty, and a request that comes back with it is treated as having no
    identity: a new one is minted from its own random value. *)
Theorem small_random_value_mints_empty_identity req n :
  (n < 16)%N ->
  Vote.cookies req !! "voter_id" = None ->
  Vote.identity req n = ""
  /\ (forall req' n',
      Vote.cookies req' !! "voter_id" = Some (Vote.identity req n) ->
      Vote.identity req' n' = Vote.hex_2_m1 n').
Proof.
  intros Hn Hc.
  assert (Vote.identity req n = "") as Hid.
  { unfold Vote.identity. rewrite Hc.
    destruct n as [| p]; [reflexivity |].
    do 4 (try destruct p as [p | p |]); try reflexivity; lia. }
  split; [exact Hid |].
  intros req' n' Hc'. rewrite Hid in Hc'. unfold Vote.identity. by rewrite Hc'.
Qed.

Lemma small_random_value_mints_empty_identity_witness :
  (5 < 16)%N
  /\ Vote.hello json_dumps post_zebra 5 app0
     = (inr (Vote.mkResponse (Some "zebra") ""),
        Vote.mkApp false true [json_dumps [("voter_id", ""); ("vote", "zebra")]]
          ["Received vote for zebra"]).
Proof.
  assert (5 < 16)%N as Hn by reflexivity.
  split; [exact Hn |].
  pose proof (proj1 (small_random_value_mints_empty_identity post_zebra 5%N Hn eq_refl)) as Hid.
  unfold Vote.hello. rewrite Hid. reflexivity.
Defined.

(** The error simulation is a switch: [toggle_error_sim] inverts the flag
    and reports its new state, which [get_error_sim_status] then returns,
    and leaves the queue alone; toggling twice restores the flag. While it
    is on, every [POST] to [hello] raises the simulated error and pushes
    nothing; a [GET] is answered as before. *)
Theorem error_simulation_switch json_dumps app :
  let app1 := snd (Vote.toggle_error_sim app) in
  fst (Vote.toggle_error_sim app) = negb (Vote.ERROR_SIM_ENABLED app)
  /\ fst (Vote.get_error_sim_status app1) = negb (Vote.ERROR_SIM_ENABLED app)
  /\ Vote.redis_votes app1 = Vote.redis_votes app
  /\ Vote.ERROR_SIM_ENABLED (snd (Vote.toggle_error_sim app1)) = Vote.ERROR_SIM_ENABLED app
  /\ (forall req n,
      Vote.ERROR_SIM_ENABLED app = false ->
      match Vote.method req with
      | Vote.POST =>
          fst (Vote.hello json_dumps req n app1) = inl Vote.SimulatedError
          /\ Vote.redis_votes (snd (Vote.hello json_dumps req n app1)) = Vote.redis_votes app
      | Vote.GET =>
          fst (Vote.hello json_dumps req n app1) = fst (Vote.hello json_dumps req n app)
      end).
Proof.
  simpl. split; [done |]. split; [done |]. split; [done |].
  split; [by destruct (Vote.ERROR_SIM_ENABLED app) |].
  intros req n Hoff. unfold Vote.hello. rewrite Hoff. simpl.
  by destruct (Vote.method req).
Qed.

Lemma error_simulation_switch_witness :
  Vote.ERROR_SIM_ENABLED app0 = false
  /\ fst (Vote.hello json_dumps post_a 255 (snd (Vote.toggle_error_sim app0)))
     = inl Vote.SimulatedError
  /\ Vote.redis_votes (snd (Vote.hello json_dumps post_a 255 (snd (Vote.toggle_error_sim app0))))
     = [].
Proof.
  split; [reflexivity |].
  exact (proj2 (proj2 (proj2 (proj2 (error_simulation_switch json_dumps app0))))
           post_a 255%N eq_refl).
Defined.

(** * From the intake to the table *)

(** A choice posted to the intake and drained by the worker ends as the
    row of the voter: when the decoder reads back what [json.dumps]
    wrote, the identity and the choice are storable (at most 255
    characters, none of them U+0000), the entry is the only one queued
    and the store connection is open when the worker comes to write, one
    iteration empties the queue and leaves exactly one row for the
    identity of the request, holding the choice posted. *)
Theorem posted_vote_reaches_table json_dumps cfg dec req n app t l w choice :
  Vote.method req = Vote.POST ->
  Vote.ERROR_SIM_ENABLED app = false ->
  Vote.redis_up app = true ->
  Vote.form req !! "vote" = Some choice ->
  Vote.redis_votes app = [] ->
  dec (json_dumps [("voter_id", Vote.identity req n); ("vote", choice)])
  = Object (mkSubmission choice (Vote.identity req n)) ->
  storable (Vote.identity req n) -> storable choice ->
  redis_votes w = Vote.redis_votes (snd (Vote.hello json_dumps req n app)) ->
  is_Some (db w) -> schema_ok (table w) ->
  redis_serves t -> Accepted ∈ Open_attempts t ->
  open_at_each_write cfg dec [t] l w ->
  exists l' w',
    iteration cfg dec t l w = (Return l', w')
    /\ redis_votes w' = []
    /\ rows_of (Vote.identity req n) (table w') = [mkRow (Vote.identity req n) choice].
Proof.
  intros Hm Hsim Hup Hform Hempty Hdec Hk Hv Hq Hdb Hok Hs Hacc Hopen.
  assert (redis_votes w = [json_dumps [("voter_id", Vote.identity req n); ("vote", choice)]])
    as Hq'.
  { rewrite Hq. unfold Vote.hello. rewrite Hm, Hsim, Hform, Hup. simpl. by rewrite Hempty. }
  set (s := mkSubmission choice (Vote.identity req n)).
  assert (Forall2 (fun json s => dec json = Object s) (redis_votes w) [s]) as Hdecs.
  { rewrite Hq'. by repeat constructor. }
  assert (Forall (fun s => voter_id s = Vote.identity req n /\ fits (Worker.vote s)) [s])
    as Hsubs.
  { apply Forall_singleton. split; [done | exact (proj1 Hv)]. }
  destruct (loop_total cfg dec [t] l w [s]) as (l' & w' & Hloop & Hq1); try done.
  { by apply Forall_singleton. }
  { by apply Forall_singleton. }
  destruct (drain cfg dec (Vote.identity req n) [t] l w l' w' [s]) as [_ Hrow]; try done.
  { exact (proj1 Hk). }
  simpl in Hloop. apply bind_Return_inv in Hloop as (l1 & w1 & Hit & Hret).
  injection Hret as <- <-. by exists l1, w1.
Qed.

Lemma posted_vote_reaches_table_witness :
  open_at_each_write (cfg false) reads_back [quiet 0] locals0
    (serving (Vote.redis_votes (snd (Vote.hello json_dumps post_a 255 app0))))
  /\ exists l' w',
      iteration (cfg false) reads_back (quiet 0) locals0
        (serving (Vote.redis_votes (snd (Vote.hello json_dumps post_a 255 app0))))
      = (Return l', w')
      /\ redis_votes w' = []
      /\ rows_of "abc" (table w') = [mkRow "abc" "a"].
Proof.
  assert (open_at_each_write (cfg false) reads_back [quiet 0] locals0
            (serving (Vote.redis_votes (snd (Vote.hello json_dumps post_a 255 app0)))))
    as Hopen.
  { split; [intros v l1 w1 H; evaluated H; open_now |]. intros l1 w1 H. exact I. }
  split; [exact Hopen |].
  apply (posted_vote_reaches_table json_dumps (cfg false) reads_back post_a 255%N app0
           (quiet 0) locals0 _ "a").
  - reflexivity.
  - reflexivity.
  - reflexivity.
  - reflexivity.
  - reflexivity.
  - vm_compute. reflexivity.
  - split; [unfold fits; vm_compute; lia | reflexivity].
  - storable_now.
  - reflexivity.
  - by eexists.
  - split; [apply NoDup_nil_2 | apply Forall_nil_2].
  - exact I.
  - apply list_elem_of_here.
  - exact Hopen.
Defined.

(** * The start of the worker, the refresh and the lost session *)

Section Start.

Variable cfg : Config.
Variable dec : string -> Decoded.

Lemma OpenRedisConnection_serves h p attempts w :
  true ∈ attempts ->
  exists lines,
    OpenRedisConnection h p attempts w = (Return tt, with_console (console w ++ lines) w).
Proof.
  intros Hin. unfold OpenRedisConnection, bind, WriteLine.
  match goal with |- context [Connect attempts ?w0] =>
    destruct (Connect_serves attempts w0 Hin) as (lines & Hc) end.
  rewrite Hc. eexists ([_] ++ lines). destruct w. unfold with_console. simpl.
  by rewrite <- !app_assoc.
Qed.

(** What [poll] does with a record when the refresh is due. *)
Lemma poll_refreshes t l w json rest v :
  redis_votes w = json :: rest ->
  dec json = Object v ->
  redis_serves t ->
  refresh_due cfg t l = true ->
  Accepted ∈ Open_attempts t ->
  exists w1,
    let c := length (heap w) in
    let cs := iam_connection_string cfg (GenerateAuthToken t) in
    poll cfg dec t l w = (Return (Some (v, mkLocals c c cs (UtcNow_after t))), w1)
    /\ store_open c w1
    /\ redis_votes w1 = rest
    /\ db w1 = Some (table w).
Proof.
  intros Hq Hdec Hs Hdue Hacc.
  destruct (poll_serves cfg dec t l w Hs) as (lines & Hp). simpl in Hp.
  rewrite Hq in Hp. rewrite Hp. clear Hp.
  unfold decode. rewrite Hdec. unfold bind at 1 2, WriteLine at 1, ret at 1.
  unfold refresh. rewrite Hdue.
  unfold bind at 1 2 3, WriteLine at 1, Close at 1.
  match goal with |- context [bind (OpenDbConnection ?cs ?a) ?k ?w0] =>
    destruct (OpenDbConnection_accepted cs a w0 Hacc) as (w1 & Ho & Hh & _ & Hq1 & Hd);
    rewrite (bind_Return (OpenDbConnection cs a) k w0 _ _ Ho) end.
  simpl in Hh, Hq1, Hd |- *. exists w1.
  rewrite length_alter, happen_length in *. split; [done |]. split; [| split].
  - eexists. rewrite Hh. rewrite lookup_app_r by (by rewrite length_alter, happen_length).
    rewrite length_alter, happen_length, Nat.sub_diag. done.
  - done.
  - rewrite Hd. unfold table. simpl. by rewrite happen_db.
Qed.

End Start.

(** With one attempt accepted by the store and Redis reachable, the start
    of [Main] returns: the connection is new and open, the keep-alive
    command is on it, the connection string carries the token when tokens
    are in use and the password otherwise, the time of the start is noted
    as that of the last refresh, the queue is untouched, and the table
    exists with the rows it had before, none if it did not exist: the
    rows survive a restart of the worker. *)
Theorem startup_ready cfg boot w :
  Accepted ∈ Open_attempts boot ->
  redis_serves boot ->
  exists l w',
    startup cfg boot w = (Return l, w')
    /\ pgsql l = length (heap w)
    /\ keepAliveCommand l = pgsql l
    /\ dbConnectionString l
       = (if useIamAuth cfg then iam_connection_string cfg (GenerateAuthToken boot)
          else password_connection_string cfg)
    /\ lastTokenRefresh l = UtcNow boot
    /\ store_open (pgsql l) w'
    /\ db w' = Some (table w)
    /\ redis_votes w' = redis_votes w.
Proof.
  intros Hacc Hs. unfold startup.
  set (cs := if useIamAuth cfg then iam_connection_string cfg (GenerateAuthToken boot)
             else password_connection_string cfg).
  assert (exists lines,
             (if useIamAuth cfg
              then WriteLine ("Using IAM authentication for RDS: " +:+ dbHost cfg
                              +:+ ":" +:+ dbPort cfg) ;;
                   ret (iam_connection_string cfg (GenerateAuthToken boot))
              else WriteLine "Using password authentication for database" ;;
                   ret (password_connection_string cfg)) w
             = (Return cs, with_console (console w ++ lines) w)) as (lines & Hcs).
  { subst cs. destruct (useIamAuth cfg); eexists [_]; reflexivity. }
  rewrite (bind_Return _ _ _ _ _ Hcs).
  match goal with |- context [bind (OpenDbConnection ?c0 ?a) ?k ?w0] =>
    destruct (OpenDbConnection_accepted c0 a w0 Hacc) as (w1 & Ho & Hh & _ & Hq1 & Hd);
    rewrite (bind_Return (OpenDbConnection c0 a) k w0 _ _ Ho) end.
  assert (true ∈ match redis boot with Disconnected attempts => attempts | _ => [true] end)
    as Hin.
  { unfold redis_serves in Hs. destruct (redis boot); [apply list_elem_of_here | done | done]. }
  destruct (OpenRedisConnection_serves (redisHost cfg) (redisPort cfg) _ w1 Hin)
    as (lines' & Hre).
  rewrite (bind_Return _ _ _ _ _ Hre). unfold ret. simpl in *.
  eexists _, _. split; [done |]. simpl. split; [done |]. split; [done |].
  split; [done |]. split; [done |]. split; [| split; [| done]].
  - unfold store_open. simpl. rewrite Hh. eexists.
    rewrite lookup_app_r by done. by rewrite Nat.sub_diag.
  - rewrite Hd. done.
Qed.

Lemma startup_ready_witness :
  (Accepted ∈ Open_attempts (quiet 0))
  /\ exists l w',
      startup (cfg false) (quiet 0) (mkWorld [json_b] (Some [mkRow "abc" "a"]) [] [])
      = (Return l, w')
      /\ store_open (pgsql l) w'
      /\ db w' = Some [mkRow "abc" "a"]
      /\ redis_votes w' = [json_b].
Proof.
  assert (Accepted ∈ Open_attempts (quiet 0)) as Hacc by apply list_elem_of_here.
  split; [exact Hacc |].
  destruct (startup_ready (cfg false) (quiet 0)
              (mkWorld [json_b] (Some [mkRow "abc" "a"]) [] []) Hacc I)
    as (l & w' & Hst & _ & _ & _ & _ & Ho & Hd & Hq).
  exists l, w'. split; [exact Hst |]. split; [exact Ho |]. split; [exact Hd | exact Hq].
Defined.

(** A record popped when the token refresh is due is written in the same
    iteration, over the connection just opened, whatever the state of the
    connection before: for a Submission whose voter identity and choice
    are storable (at most 255 characters, none of them U+0000), with an
    attempt accepted by the store, the iteration returns with the record
    off the queue, one row for the voter holding the choice, and the
    keep-alive command on the new connection. *)
Theorem refresh_then_write cfg dec t l w json rest v :
  redis_votes w = json :: rest ->
  dec json = Object v ->
  redis_serves t ->
  refresh_due cfg t l = true ->
  Accepted ∈ Open_attempts t ->
  storable (voter_id v) -> storable (Worker.vote v) ->
  schema_ok (table w) ->
  exists l' w',
    iteration cfg dec t l w = (Return l', w')
    /\ pgsql l' = length (heap w)
    /\ keepAliveCommand l' = pgsql l'
    /\ redis_votes w' = rest
    /\ rows_of (voter_id v) (table w') = [mkRow (voter_id v) (Worker.vote v)].
Proof.
  intros Hq Hdec Hs Hdue Hacc Hk Hv Hok.
  destruct (poll_refreshes cfg dec t l w json rest v Hq Hdec Hs Hdue Hacc)
    as (w1 & Hp & Ho & Hq1 & Hd). simpl in Hp.
  set (l1 := mkLocals (length (heap w)) (length (heap w))
               (iam_connection_string cfg (GenerateAuthToken t)) (UtcNow_after t)) in Hp.
  unfold iteration. rewrite (bind_Return _ _ _ _ _ Hp).
  rewrite (write_open t l1 v w1 Ho). unfold bind. simpl pgsql.
  rewrite (UpdateVote_open _ _ _ _ Ho), Hd.
  destruct (upsert_total (voter_id v) (Worker.vote v) (table w) Hk Hv) as (t' & Hup).
  rewrite Hup. eexists _, _. split; [done |]. simpl.
  split; [done |]. split; [done |]. split; [done |].
  apply (upsert_row (voter_id v) (Worker.vote v) (Some (table w)) (Some t') Hup
           (proj1 Hk) (proj1 Hv) Hok).
Qed.

Lemma refresh_then_write_witness :
  refresh_due (cfg true) (quiet 600001) locals0 = true
  /\ exists l' w',
      iteration (cfg true) DeserializeAnonymousType (quiet 600001) locals0 (broken [json_a])
      = (Return l', w')
      /\ pgsql l' = 1
      /\ keepAliveCommand l' = pgsql l'
      /\ redis_votes w' = []
      /\ rows_of "abc" (table w') = [mkRow "abc" "a"].
Proof.
  assert (refresh_due (cfg true) (quiet 600001) locals0 = true) as Hdue by reflexivity.
  split; [exact Hdue |].
  apply (refresh_then_write (cfg true) DeserializeAnonymousType (quiet 600001) locals0
           (broken [json_a]) json_a [] (mkSubmission "a" "abc")).
  - reflexivity.
  - reflexivity.
  - exact I.
  - exact Hdue.
  - apply list_elem_of_here.
  - storable_now.
  - storable_now.
  - split; [apply NoDup_nil_2 | apply Forall_nil_2].
Defined.

(** A session lost without the driver noticing, found at the write: the
    insert fails with the driver's exception, which [UpdateVote] catches
    like a refusal by the server; the update is then sent over the
    connection now marked broken, and its exception leaves [UpdateVote]
    and the loop. The record is off the queue, the table is as it was,
    and [Main] returns 1. *)
Theorem lost_session_at_write_exits cfg dec t ticks l w v l1 w1 conn :
  poll cfg dec t l w = (Return (Some (v, l1)), w1) ->
  heap w1 !! pgsql l1 = Some conn ->
  State conn = Open ->
  link_up conn = false ->
  Main_from cfg dec l (t :: ticks) w
  = (Exited 1,
     with_console (console w1 ++ [stderr (ToString InvalidOperationException)])
       (with_heap (alter (set_State Broken) (pgsql l1) (heap w1)) w1)).
Proof.
  intros Hp Hc Hst Hl. unfold Main_from, top_level. simpl. unfold iteration.
  unfold bind at 1 2. rewrite Hp. unfold write. unfold bind at 1 2. unfold get_State.
  rewrite Hc. simpl. rewrite Hst.
  destruct (decide (Open = Open)) as [_ | Hn]; [| done].
  unfold bind, UpdateVote, try_catch_DbException, ExecuteNonQuery.
  rewrite Hc. destruct (decide (State conn = Open)) as [_ | Hn]; [| done].
  rewrite Hl. simpl. rewrite (heap_alter_same _ _ _ _ Hc). simpl.
  destruct (decide (Broken = Open)) as [Hb | _]; done.
Qed.

Lemma lost_session_at_write_exits_witness :
  Main_from (cfg false) DeserializeAnonymousType locals0
    [mkTick LinkLost IsConnected 0 0 "token" []; quiet 100] (voted [json_b; json_a])
  = (Exited 1,
     mkWorld [json_a] (Some [mkRow "abc" "a"]) [mkConn Broken false "Server=db"]
       [stdout "Processing vote for 'b' by 'abc'";
        stderr "System.InvalidOperationException"]).
Proof.
  rewrite (lost_session_at_write_exits (cfg false) DeserializeAnonymousType
             (mkTick LinkLost IsConnected 0 0 "token" []) [quiet 100] locals0
             (voted [json_b; json_a]) (mkSubmission "b" "abc") locals0
             (mkWorld [json_a] (Some [mkRow "abc" "a"]) [mkConn Open false "Server=db"]
                [stdout "Processing vote for 'b' by 'abc'"])
             (mkConn Open false "Server=db")).
  - reflexivity.
  - vm_compute. reflexivity.
  - reflexivity.
  - reflexivity.
  - reflexivity.
Defined.
